(** * solana-wallet-analyzer: the transaction classifier and the address ledger

    A shallow embedding of [get_related_wallets.js]:
    - [determineTransactionType], the heuristic classifier (lines 19-146);
    - the body of the [forEach] in [main] that tallies related addresses
      in [relatedAddressMap] (lines 276-286), and the loop around it;
    - the handling of the command line at the start of [main] (lines
      167-208), with [parseInt] as a parameter;
    - the decisions of the report (lines 293-300 and 321-323) and the name
      of the log file (line 312).
    The RPC connection, the pacing, the clock and the writing of the log
    file are not part of the model.

    The parsed transaction is modelled with the shape the function reads:
    a record per object, one field per property the code touches.  Every
    field is an [option]: [None] stands for a property that is [undefined]
    or [null]; the function cannot tell the two apart, since it only tests
    truthiness ([!x], [x && y]) and uses optional chaining ([x?.f]).
    A program id is the base-58 string its [toString()] returns, and the
    query address likewise.  Numbers are IEEE-754 doubles ([PrimFloat]),
    as in JavaScript.  A JavaScript [TypeError] is a [Throw] of the
    completion monad below. *)

From Stdlib Require Import String Ascii List Bool Arith Lia PrimFloat.
From Stdlib Require Import ZArith Permutation DecimalString.
Import ListNotations.
Open Scope string_scope.

(** ** Completions: a JavaScript call returns normally or throws *)

Inductive exn : Type :=
| TypeError (message : string).

Inductive completion (A : Type) : Type :=
| Normal (a : A)
| Throw (e : exn).

Arguments Normal {A} a.
Arguments Throw {A} e.

Definition bind {A B : Type} (c : completion A) (k : A -> completion B)
  : completion B :=
  match c with
  | Normal a => k a
  | Throw e => Throw e
  end.

Notation "x <- c ;; k" := (bind c (fun x => k))
  (at level 61, c at next level, right associativity).

(** ** JavaScript primitives used by the script *)

(** [o?.f]: optional chaining. *)
Definition chain {A B : Type} (o : option A) (f : A -> option B) : option B :=
  match o with
  | Some a => f a
  | None => None
  end.

(** [o === lit] for an optional string [o] and a string literal. *)
Definition strictEq (o : option string) (lit : string) : bool :=
  match o with
  | Some s => s =? lit
  | None => false
  end.

(** Truthiness of an optional string: [undefined], [null] and [""] are falsy. *)
Definition truthyString (o : option string) : bool :=
  match o with
  | Some s => negb (s =? "")
  | None => false
  end.

(** Truthiness of a number: [0], [-0] and [NaN] are falsy. *)
Definition truthyNumber (x : float) : bool :=
  negb (PrimFloat.eqb x 0%float) && PrimFloat.eqb x x.

(** [l?.length > 0]; [undefined > 0] is false. *)
Definition lengthPositive {A : Type} (l : option (list A)) : bool :=
  match l with
  | Some l => (0 <? length l)%nat
  | None => false
  end.

(** [String.prototype.toLowerCase] on the letters A-Z. *)
Definition lowerAscii (c : ascii) : ascii :=
  let n := nat_of_ascii c in
  if ((65 <=? n) && (n <=? 90))%nat then ascii_of_nat (n + 32) else c.

Fixpoint toLowerCase (s : string) : string :=
  match s with
  | EmptyString => EmptyString
  | String c s' => String (lowerAscii c) (toLowerCase s')
  end.

(** [Array.prototype.join]. *)
Definition join (sep : string) (lines : list string) : string :=
  String.concat sep lines.

(** [String.prototype.includes]. *)
Fixpoint includes (s sub : string) : bool :=
  String.prefix sub s ||
  match s with
  | EmptyString => false
  | String _ s' => includes s' sub
  end.

(** ** The parsed transaction *)

Record ParsedInfo : Type := {
  source : option string;
  destination : option string;
  lamports : option float
}.

Module Parsed.
Record t : Type := {
  type : option string;
  info : option ParsedInfo
}.
End Parsed.

Record Instruction : Type := {
  programId : option string;
  program : option string;
  parsed : option Parsed.t
}.

Record Message : Type := {
  instructions : option (list Instruction)
}.

Module Inner.
Record t : Type := {
  instructions : option (list Instruction)
}.
End Inner.

(** An entry of [preTokenBalances] / [postTokenBalances]; the classifier
    reads only the length of these lists. *)
Record TokenBalance : Type := {
  accountIndex : nat;
  mint : string
}.

Record Meta : Type := {
  preTokenBalances : option (list TokenBalance);
  postTokenBalances : option (list TokenBalance);
  logMessages : option (list string);
  innerInstructions : option (list Inner.t)
}.

Record Transaction : Type := {
  message : option Message
}.

Record ParsedTransactionWithMeta : Type := {
  transaction : option Transaction;
  meta : option Meta
}.

(** ** The classification result *)

(** A value stored in [details]. *)
Inductive value : Type :=
| undefined
| null
| Str (s : string)
| Num (x : float).

Record RelatedAddress : Type := {
  address : string;
  direction : string
}.

Record Result : Type := {
  type : string;
  relatedAddresses : list RelatedAddress;
  details : list (string * value)
}.

(** ** determineTransactionType *)

Definition knownSwapPrograms : list string := [
  "JUP6LkbZbjS1jKKwapdHNy74zcZ3tLUZoi5QNyVTaV4";
  "SwaPpA9LAaLfeLi3a68M4DjnLqgtticKg6CnyNwgAC8";
  "9W959DqEETiGZocYWCQPaJ6sBmUzgfxXfqGeTEdp3aQP";
  "CPMMoo8L3F4NbTegBCKVNunggL7H1ZpdTHKxQB5qKP1C";
  "6EF8rrecthR5Dkzon8Nwu78hRvfCKubJ14M5uBEwF6P"
].

Definition SYSTEM_PROGRAM : string := "11111111111111111111111111111111".
Definition TOKEN_PROGRAM : string := "TokenkegQfeZyiNwAJbNbGKPFXCWuBvf9Ss623VQ5DA".
Definition COMPUTE_BUDGET : string := "ComputeBudget111111111111111111111111111111".

(** [ix.parsed?.type] *)
Definition parsedType (ix : Instruction) : option string :=
  chain (parsed ix) Parsed.type.

(** [ix.parsed?.info?.source], [...destination], [...lamports] *)
Definition parsedSource (ix : Instruction) : option string :=
  chain (chain (parsed ix) Parsed.info) source.

Definition parsedDestination (ix : Instruction) : option string :=
  chain (chain (parsed ix) Parsed.info) destination.

Definition parsedLamports (ix : Instruction) : option float :=
  chain (chain (parsed ix) Parsed.info) lamports.

(** [transaction.meta && (preTokenBalances?.length > 0 ||
    postTokenBalances?.length > 0)], as the truth value line 60 tests. *)
Definition hasTokenBalanceChanges (tx : ParsedTransactionWithMeta) : bool :=
  match meta tx with
  | Some m =>
      lengthPositive (preTokenBalances m) || lengthPositive (postTokenBalances m)
  | None => false
  end.

Definition isComputeBudget (ix : Instruction) : bool :=
  strictEq (programId ix) COMPUTE_BUDGET.

Definition isAdvanceNonce (ix : Instruction) : bool :=
  strictEq (programId ix) SYSTEM_PROGRAM && strictEq (parsedType ix) "advanceNonce".

(** The predicate of [instructions.find] at lines 56-58. *)
Definition isSystemTransfer (ix : Instruction) : bool :=
  strictEq (programId ix) SYSTEM_PROGRAM && strictEq (parsedType ix) "transfer".

(** The predicate of [instructions.some] at lines 98-100. *)
Definition isTokenTransfer (ix : Instruction) : bool :=
  strictEq (programId ix) TOKEN_PROGRAM &&
  (strictEq (parsedType ix) "transfer" || strictEq (parsedType ix) "transferChecked").

(** [knownSwapPrograms.includes(ix.programId?.toString())] *)
Definition isKnownSwap (ix : Instruction) : bool :=
  match programId ix with
  | Some p => existsb (String.eqb p) knownSwapPrograms
  | None => false
  end.

(** The predicate of [inner.instructions.some] at lines 134-138. *)
Definition isInnerSwapSignal (ix : Instruction) : bool :=
  (strictEq (programId ix) TOKEN_PROGRAM &&
   (strictEq (program ix) "spl-token" &&
    (strictEq (parsedType ix) "transfer" || strictEq (parsedType ix) "transferChecked")))
  || isKnownSwap ix.

(** The condition of the [if] at lines 50-54. *)
Definition simpleTransferShape (instructions : list Instruction) : bool :=
  (length instructions =? 1)%nat ||
  ((length instructions <=? 4)%nat &&
   (existsb isComputeBudget instructions || existsb isAdvanceNonce instructions)).

(** [amount ? amount / 1e9 : null] *)
Definition amountInSol (amount : option float) : value :=
  match amount with
  | Some x => if truthyNumber x then Num (x / 1e9)%float else null
  | None => null
  end.

Definition ofString (o : option string) : value :=
  match o with
  | Some s => Str s
  | None => undefined
  end.

(** Lines 76-91: the counterparty pushed on [result.relatedAddresses]. *)
Definition counterparty (source destination : option string)
    (sourceAddress : string) : list RelatedAddress :=
  match source, destination with
  | Some s, Some d =>
      if truthyString source && truthyString destination then
        if s =? sourceAddress then
          [{| address := d; direction := "sent" |}]
        else if d =? sourceAddress then
          [{| address := s; direction := "received" |}]
        else []
      else []
  | _, _ => []
  end.

(** Lines 61-93: the result built from the located transfer instruction. *)
Definition transferResult (transferIx : Instruction) (sourceAddress : string)
  : Result :=
  let source := parsedSource transferIx in
  let destination := parsedDestination transferIx in
  let amount := parsedLamports transferIx in
  {| type := "transfer";
     relatedAddresses := counterparty source destination sourceAddress;
     details := [("source", ofString source);
                 ("destination", ofString destination);
                 ("amount", amountInSol amount)] |}.

(** Lines 50-95: the simple SOL transfer rule; [None] when control falls
    through to the token-transfer check. *)
Definition simpleTransfer (instructions : list Instruction)
    (hasTokenBalanceChanges : bool) (sourceAddress : string) : option Result :=
  if simpleTransferShape instructions then
    match find isSystemTransfer instructions with
    | Some transferIx =>
        if negb hasTokenBalanceChanges
        then Some (transferResult transferIx sourceAddress)
        else None
    | None => None
    end
  else None.

(** Lines 119-129: the log-message fallback. *)
Definition logsMentionSwap (tx : ParsedTransactionWithMeta) : bool :=
  match chain (meta tx) logMessages with
  | Some lines =>
      let logMessages := toLowerCase (join " " lines) in
      includes logMessages "swap" ||
      includes logMessages "exchange" ||
      includes logMessages "trade" ||
      includes logMessages "buy" ||
      includes logMessages "sell"
  | None => false
  end.

(** Lines 133-142: the loop over the inner instruction groups; it throws
    on a group without an [instructions] array. *)
Fixpoint scanInner (groups : list Inner.t) : completion bool :=
  match groups with
  | [] => Normal false
  | inner :: rest =>
      match Inner.instructions inner with
      | Some ixs =>
          if existsb isInnerSwapSignal ixs then Normal true else scanInner rest
      | None => Throw (TypeError "Cannot read properties of undefined (reading 'some')")
      end
  end.

Definition unknownResult : Result :=
  {| type := "unknown"; relatedAddresses := []; details := [] |}.

(** [result.type = t; return result] *)
Definition withType (t : string) : Result :=
  {| type := t;
     relatedAddresses := relatedAddresses unknownResult;
     details := details unknownResult |}.

Definition determineTransactionType (tx : option ParsedTransactionWithMeta)
    (sourceAddress : string) : completion Result :=
  let result := unknownResult in
  match tx with
  | None => Normal result
  | Some tx =>
  match transaction tx with
  | None => Normal result
  | Some body =>
  match message body with
  | None => Normal result
  | Some message =>
      instructions <-
        match instructions message with
        | Some l => Normal l
        | None => Throw (TypeError "Cannot read properties of undefined (reading 'length')")
        end ;;
      match simpleTransfer instructions (hasTokenBalanceChanges tx) sourceAddress with
      | Some transfer => Normal transfer
      | None =>
          if existsb isTokenTransfer instructions then
            if existsb isKnownSwap instructions
            then Normal (withType "swap")
            else Normal (withType "token_transfer")
          else if existsb isKnownSwap instructions then Normal (withType "swap")
          else if logsMentionSwap tx then Normal (withType "swap")
          else
            match chain (meta tx) innerInstructions with
            | Some groups =>
                found <- scanInner groups ;;
                Normal (if found : bool then withType "swap" else result)
            | None => Normal result
            end
      end
  end end end.

(** ** The address ledger of [main] *)

(** The value of an entry.  The two counters start at 0 and only grow by
    [++]; such JavaScript numbers are exact integers (below 2^53) and are
    natural numbers here. *)
Record Counts : Type := {
  sent : nat;
  received : nat
}.

(** [relatedAddressMap]: a JavaScript [Map], which keeps its keys in the
    order of their first insertion. *)
Definition Ledger : Type := list (string * Counts).

Module Map.
(** [Map.prototype.get]; [None] is [undefined]. *)
Fixpoint get (m : Ledger) (k : string) : option Counts :=
  match m with
  | [] => None
  | (k', v) :: m' => if k' =? k then Some v else get m' k
  end.

(** [Map.prototype.set]: a known key keeps its place, a new one goes last. *)
Fixpoint set (m : Ledger) (k : string) (v : Counts) : Ledger :=
  match m with
  | [] => [(k, v)]
  | (k', v') :: m' =>
      if k' =? k then (k, v) :: m' else (k', v') :: set m' k v
  end.
End Map.

(** [relatedAddressMap.get(a) || { sent: 0, received: 0 }] *)
Definition countsOf (m : Ledger) (a : string) : Counts :=
  match Map.get m a with
  | Some d => d
  | None => {| sent := 0; received := 0 |}
  end.

(** Lines 276-286: the callback of [forEach]. *)
Definition addRelated (m : Ledger) (addrInfo : RelatedAddress)
  : completion Ledger :=
  let addrData := countsOf m (address addrInfo) in
  let addrData :=
    if direction addrInfo =? "sent" then
      {| sent := S (sent addrData); received := received addrData |}
    else if direction addrInfo =? "received" then
      {| sent := sent addrData; received := S (received addrData) |}
    else addrData in
  Normal (Map.set m (address addrInfo) addrData).

(** [txInfo.relatedAddresses.forEach(...)] *)
Fixpoint fold (m : Ledger) (related : list RelatedAddress) : completion Ledger :=
  match related with
  | [] => Normal m
  | addrInfo :: rest => m' <- addRelated m addrInfo ;; fold m' rest
  end.

(** [n] successive folds of the same list. *)
Fixpoint foldTimes (n : nat) (m : Ledger) (related : list RelatedAddress)
  : completion Ledger :=
  match n with
  | O => Normal m
  | S n' => m' <- fold m related ;; foldTimes n' m' related
  end.

(** Lines 250-308, without the input and output: skip the transactions
    that were not found, classify the others and tally their related
    addresses; an exception of the classifier ends the run. *)
Fixpoint analyze (txs : list (option ParsedTransactionWithMeta))
    (address : string) (m : Ledger) : completion (list string * Ledger) :=
  match txs with
  | [] => Normal ([], m)
  | None :: rest => analyze rest address m
  | Some tx :: rest =>
      txInfo <- determineTransactionType (Some tx) address ;;
      m' <- fold m (relatedAddresses txInfo) ;;
      out <- analyze rest address m' ;;
      Normal (type txInfo :: fst out, snd out)
  end.

(** [txInfo.details.amount] and the like: a property of [details]. *)
Fixpoint property (o : list (string * value)) (key : string) : option value :=
  match o with
  | [] => None
  | (k, v) :: o' => if k =? key then Some v else property o' key
  end.

(** [s] has [sub] as a substring. *)
Definition Contains (s sub : string) : Prop :=
  exists before after, s = before ++ sub ++ after.

(** [s] has no space character. *)
Fixpoint noSpace (s : string) : bool :=
  match s with
  | EmptyString => true
  | String c s' => negb (Ascii.eqb c " ") && noSpace s'
  end.

(** ** Sample transactions *)

(** A parsed transaction whose message carries the instruction list [ixs]. *)
Definition parsedTx (ixs : list Instruction) (m : option Meta)
  : ParsedTransactionWithMeta :=
  {| transaction := Some {| message := Some {| instructions := Some ixs |} |};
     meta := m |}.

Definition systemTransfer (src dst : string) (amount : float) : Instruction :=
  {| programId := Some SYSTEM_PROGRAM;
     program := Some "system";
     parsed := Some {| Parsed.type := Some "transfer";
                       Parsed.info := Some {| source := Some src;
                                              destination := Some dst;
                                              lamports := Some amount |} |} |}.

Definition computeBudgetIx : Instruction :=
  {| programId := Some COMPUTE_BUDGET; program := None; parsed := None |}.

Definition memoIx : Instruction :=
  {| programId := Some "MemoSq4gqABAXKb96qnH8TysNcWxMyWCqXgDLGmfcHr";
     program := Some "spl-memo";
     parsed := None |}.

Definition tokenTransferIx : Instruction :=
  {| programId := Some TOKEN_PROGRAM;
     program := Some "spl-token";
     parsed := Some {| Parsed.type := Some "transferChecked"; Parsed.info := None |} |}.

Definition jupiterIx : Instruction :=
  {| programId := Some "JUP6LkbZbjS1jKKwapdHNy74zcZ3tLUZoi5QNyVTaV4";
     program := None;
     parsed := None |}.

Definition logsOnly (lines : list string) : Meta :=
  {| preTokenBalances := Some [];
     postTokenBalances := Some [];
     logMessages := Some lines;
     innerInstructions := None |}.

Definition alice : string := "A1iceWa11et1111111111111111111111111111111".
Definition bob : string := "BobWa11et11111111111111111111111111111111111".
Definition carol : string := "Caro1Wa11et111111111111111111111111111111111".
Definition dave : string := "DaveWa11et1111111111111111111111111111111111".

Definition transferWithoutSource : Instruction :=
  {| programId := Some SYSTEM_PROGRAM;
     program := Some "system";
     parsed := Some {| Parsed.type := Some "transfer";
                       Parsed.info := Some {| source := None;
                                              destination := Some bob;
                                              lamports := Some 5e8%float |} |} |}.

Definition transferOfNothingWithoutSource : Instruction :=
  {| programId := Some SYSTEM_PROGRAM;
     program := Some "system";
     parsed := Some {| Parsed.type := Some "transfer";
                       Parsed.info := Some {| source := None;
                                              destination := Some bob;
                                              lamports := Some 0%float |} |} |}.

(** ** The command line of [main] (lines 167-208) *)

(** What [parseInt] returns: [NaN] or an integer.  The script only tests
    the result with [isNaN], compares it with 0 and with 1000 and takes its
    minimum with 1000; a digit string too long for a double is rounded by
    JavaScript to a number on the same side of 0 and of 1000, so the
    integer stands for it here. *)
Inductive number : Type :=
| NaN
| Int (z : Z).

Definition isNaN (n : number) : bool :=
  match n with
  | NaN => true
  | Int _ => false
  end.

(** [parseInt] on a string of ASCII characters: leading white space, an
    optional sign, an optional [0x] prefix, then the longest run of digits
    of the radix. *)
Definition isWhiteSpace (c : ascii) : bool :=
  let n := nat_of_ascii c in
  ((9 <=? n) && (n <=? 13) || (n =? 32))%nat.

Fixpoint trimStart (s : string) : string :=
  match s with
  | EmptyString => EmptyString
  | String c s' => if isWhiteSpace c then trimStart s' else s
  end.

Definition digitValue (c : ascii) : option Z :=
  let n := nat_of_ascii c in
  if ((48 <=? n) && (n <=? 57))%nat then Some (Z.of_nat (n - 48))
  else if ((97 <=? n) && (n <=? 122))%nat then Some (Z.of_nat (n - 87))
  else if ((65 <=? n) && (n <=? 90))%nat then Some (Z.of_nat (n - 55))
  else None.

Fixpoint digitRun (radix : Z) (s : string) (acc : option Z) : option Z :=
  match s with
  | EmptyString => acc
  | String c s' =>
      match digitValue c with
      | Some d =>
          if (d <? radix)%Z
          then digitRun radix s'
                 (Some (match acc with Some a => a * radix + d | None => d end)%Z)
          else acc
      | None => acc
      end
  end.

Definition parseIntAscii (s : string) : number :=
  let s := trimStart s in
  let '(sign, s) :=
    match s with
    | String "-" s' => ((-1)%Z, s')
    | String "+" s' => (1%Z, s')
    | _ => (1%Z, s)
    end in
  let '(radix, s) :=
    match s with
    | String "0" (String "x" s') => (16%Z, s')
    | String "0" (String "X" s') => (16%Z, s')
    | _ => (10%Z, s)
    end in
  match digitRun radix s None with
  | Some n => Int (sign * n)
  | None => NaN
  end.

(** The three variables the argument loop assigns. *)
Record ParsedArgs : Type := {
  walletAddress : option string;
  limit : number;
  shouldLog : bool
}.

(** Lines 169-171. *)
Definition defaultArguments : ParsedArgs :=
  {| walletAddress := None; limit := Int 10; shouldLog := false |}.

(** Lines 175-183: the body of the loop over [args]. *)
Definition parseArg (parseInt : string -> number) (st : ParsedArgs)
    (arg : string) : ParsedArgs :=
  if arg =? "--log" then
    {| walletAddress := walletAddress st; limit := limit st; shouldLog := true |}
  else if negb (truthyString (walletAddress st)) then
    {| walletAddress := Some arg; limit := limit st; shouldLog := shouldLog st |}
  else if negb (isNaN (parseInt arg)) then
    {| walletAddress := walletAddress st; limit := parseInt arg;
       shouldLog := shouldLog st |}
  else st.

Definition parseArgs (parseInt : string -> number) (args : list string)
  : ParsedArgs :=
  fold_left (parseArg parseInt) args defaultArguments.

(** How the start of [main] ends: [process.exit(code)], or the run goes on
    with the wallet address, the capped limit, the logging flag and
    whether the capping notice was printed. *)
Inductive startup : Type :=
| Exit (code : nat)
| Run (walletAddress : string) (limit : Z) (shouldLog notice : bool).

(** Lines 187-208. *)
Definition checkArguments (st : ParsedArgs) : startup :=
  match walletAddress st with
  | Some w =>
      if truthyString (Some w) then
        match limit st with
        | NaN => Exit 1
        | Int providedLimit =>
            if (providedLimit <=? 0)%Z then Exit 1
            else Run w (Z.min providedLimit 1000) (shouldLog st)
                   (1000 <? providedLimit)%Z
        end
      else Exit 1
  | None => Exit 1
  end.

Definition start (parseInt : string -> number) (args : list string) : startup :=
  checkArguments (parseArgs parseInt args).

(** ** What [main] prints *)

(** A counter in a template string: its decimal digits. *)
Definition showNat (n : nat) : string :=
  NilZero.string_of_uint (Nat.to_uint n).

(** Lines 321-323. *)
Definition directionInfo (counts : Counts) : list string :=
  List.app
    (if (0 <? sent counts)%nat
     then ["Sent: " ++ showNat (sent counts)] else [])
    (if (0 <? received counts)%nat
     then ["Received: " ++ showNat (received counts)] else []).

(** A value of [details] is truthy. *)
Definition truthyValue (v : option value) : bool :=
  match v with
  | Some (Num x) => truthyNumber x
  | Some (Str s) => negb (s =? "")
  | _ => false
  end.

(** [v === s] for a value of [details] and a string. *)
Definition valueIs (v : option value) (s : string) : bool :=
  match v with
  | Some (Str s') => s' =? s
  | _ => false
  end.

(** Lines 293-300: whether the amount line is printed, and its suffix. *)
Definition amountLabel (txInfo : Result) (address : string) : option string :=
  if (type txInfo =? "transfer") &&
     truthyValue (property (details txInfo) "amount")
  then Some (if valueIs (property (details txInfo) "source") address
             then " (Sent)" else " (Received)")
  else None.

(** ** The name of the log file (line 312) *)

(** The strings of this line are ASCII: a base-58 address and the result
    of [toISOString]. *)

(** [s.replace(/:/g, '-')] *)
Fixpoint replaceColons (s : string) : string :=
  match s with
  | EmptyString => EmptyString
  | String c s' =>
      String (if Ascii.eqb c ":" then "-"%char else c) (replaceColons s')
  end.

(** The characters the [.] of a regular expression does not match. *)
Definition isLineTerminator (c : ascii) : bool :=
  let n := nat_of_ascii c in ((n =? 10) || (n =? 13))%nat.

(** What is left of a line after the greedy [.+] has consumed it. *)
Fixpoint afterLine (s : string) : string :=
  match s with
  | EmptyString => EmptyString
  | String c s' => if isLineTerminator c then s else afterLine s'
  end.

(** [s.replace(/\..+/, '')]: the first dot that is followed by a
    character of the same line is removed with the rest of its line. *)
Fixpoint dropFraction (s : string) : string :=
  match s with
  | EmptyString => EmptyString
  | String c s' =>
      if Ascii.eqb c "." then
        match s' with
        | EmptyString => s
        | String d _ =>
            if isLineTerminator d then String c (dropFraction s')
            else afterLine s'
        end
      else String c (dropFraction s')
  end.

Definition logFileName (address iso : string) : string :=
  "tx_logs_" ++ String.substring 0 8 address ++ "_" ++
  dropFraction (replaceColons iso) ++ ".json".

(** No character of [s] is [c]. *)
Fixpoint without (c : ascii) (s : string) : Prop :=
  match s with
  | EmptyString => True
  | String d s' => d <> c /\ without c s'
  end.

(** ** Counting helpers for the statements *)

(** How many pairs of [related] name [X] with the tag [tag]. *)
Definition occurrences (X tag : string) (related : list RelatedAddress) : nat :=
  length (filter (fun a => (address a =? X) && (direction a =? tag)) related).

(** The sum of all counters of a ledger. *)
Definition total (m : Ledger) : nat :=
  list_sum (map (fun e => sent (snd e) + received (snd e))%nat m).

(** The transactions that were found. *)
Definition found (txs : list (option ParsedTransactionWithMeta)) : nat :=
  length (filter (fun tx => match tx with Some _ => true | None => false end) txs).

(** An inner token transfer, as the token program reports it. *)
Definition innerTokenTransferIx : Instruction :=
  {| programId := Some TOKEN_PROGRAM;
     program := Some "spl-token";
     parsed := Some {| Parsed.type := Some "transfer"; Parsed.info := None |} |}.

Definition innerOnly (groups : list Inner.t) : Meta :=
  {| preTokenBalances := None;
     postTokenBalances := None;
     logMessages := None;
     innerInstructions := Some groups |}.

(** * Properties *)

(** ** Strings *)

Lemma strictEq_true (o : option string) (lit : string) :
  strictEq o lit = true <-> o = Some lit.
Proof.
  destruct o as [s|]; simpl.
  - rewrite String.eqb_eq. split; [intros ->; reflexivity | congruence].
  - split; discriminate.
Qed.

Lemma prefix_true (p s : string) :
  String.prefix p s = true <-> exists after, s = p ++ after.
Proof.
  revert s. induction p as [|c p IH]; intros s; simpl.
  - split; [intros _; exists s; reflexivity | intros _; now destruct s].
  - destruct s as [|d s]; simpl.
    + split; [discriminate | intros [after H]; discriminate].
    + destruct (Ascii.ascii_dec c d) as [->|Hcd].
      * rewrite IH. split; intros [after H]; exists after; congruence.
      * split; [discriminate | intros [after H]; congruence].
Qed.

Lemma includes_Contains (s sub : string) :
  includes s sub = true <-> Contains s sub.
Proof.
  unfold Contains. induction s as [|c s IH]; cbn [includes].
  - rewrite orb_false_r, prefix_true. split.
    + intros [after H]. exists "", after. exact H.
    + intros [[|b before] [after H]]; [exists after; exact H | discriminate].
  - rewrite orb_true_iff, prefix_true, IH. split.
    + intros [[after H] | [before [after H]]].
      * exists "", after. exact H.
      * exists (String c before), after. simpl. congruence.
    + intros [[|b before] [after H]].
      * left. exists after. exact H.
      * right. exists before, after. simpl in H. congruence.
Qed.

Lemma toLowerCase_app (s t : string) :
  toLowerCase (s ++ t) = toLowerCase s ++ toLowerCase t.
Proof.
  induction s as [|c s IH]; simpl; [reflexivity | now rewrite IH].
Qed.

Lemma append_assoc (s t u : string) : (s ++ t) ++ u = s ++ (t ++ u).
Proof.
  induction s as [|c s IH]; simpl; [reflexivity | now rewrite IH].
Qed.

Lemma Contains_app_l (s t sub : string) : Contains s sub -> Contains (s ++ t) sub.
Proof.
  intros [before [after ->]]. exists before, (after ++ t).
  now rewrite !append_assoc.
Qed.

Lemma Contains_app_r (s t sub : string) : Contains t sub -> Contains (s ++ t) sub.
Proof.
  intros [before [after ->]]. exists (s ++ before), after.
  now rewrite !append_assoc.
Qed.

Lemma Contains_toLowerCase_app_l (s t sub : string) :
  Contains (toLowerCase s) sub -> Contains (toLowerCase (s ++ t)) sub.
Proof. rewrite toLowerCase_app. apply Contains_app_l. Qed.

Lemma Contains_toLowerCase_app_r (s t sub : string) :
  Contains (toLowerCase t) sub -> Contains (toLowerCase (s ++ t)) sub.
Proof. rewrite toLowerCase_app. apply Contains_app_r. Qed.

(** A keyword found in one line is found in the joined lines. *)
Lemma Contains_join (sep : string) (lines : list string) (line sub : string) :
  In line lines ->
  Contains (toLowerCase line) sub ->
  Contains (toLowerCase (join sep lines)) sub.
Proof.
  unfold join. induction lines as [|l rest IH]; intros Hin Hsub; [contradiction|].
  destruct rest as [|l' rest'].
  - destruct Hin as [->|[]]. exact Hsub.
  - change (String.concat sep (l :: l' :: rest'))
      with (l ++ sep ++ String.concat sep (l' :: rest')).
    destruct Hin as [->|Hin].
    + now apply Contains_toLowerCase_app_l.
    + apply Contains_toLowerCase_app_r, Contains_toLowerCase_app_r.
      now apply IH.
Qed.

(** A word without a space cannot lie across the separator of [join]. *)
Lemma prefix_before_space (kw x rest : string) :
  noSpace kw = true ->
  String.prefix kw (x ++ String " " rest) = String.prefix kw x.
Proof.
  revert x. induction kw as [|k kw IH]; intros x Hkw.
  - now destruct x.
  - cbn [noSpace] in Hkw. apply andb_true_iff in Hkw. destruct Hkw as [Hk Hkw].
    destruct x as [|c x]; cbn [append String.prefix].
    + destruct (Ascii.ascii_dec k " ") as [->|_]; [discriminate | reflexivity].
    + destruct (Ascii.ascii_dec k c); [now apply IH | reflexivity].
Qed.

Lemma includes_across_space (kw a b : string) :
  noSpace kw = true ->
  includes (a ++ String " " b) kw = includes a kw || includes b kw.
Proof.
  intros Hkw. induction a as [|c a IH].
  - cbn [append includes].
    rewrite <- (prefix_before_space kw "" b Hkw). now rewrite orb_false_r.
  - cbn [append includes]. rewrite IH.
    change (String c (a ++ String " " b)) with (String c a ++ String " " b).
    rewrite (prefix_before_space kw (String c a) b Hkw).
    now rewrite orb_assoc.
Qed.

Lemma includes_join (kw : string) (lines : list string) :
  noSpace kw = true -> kw <> "" ->
  includes (join " " lines) kw = existsb (fun line => includes line kw) lines.
Proof.
  intros Hkw Hne. unfold join. induction lines as [|l rest IH].
  - destruct kw; [contradiction | reflexivity].
  - destruct rest as [|l' rest'].
    + cbn [String.concat existsb]. now rewrite orb_false_r.
    + change (String.concat " " (l :: l' :: rest'))
        with (l ++ String " " (String.concat " " (l' :: rest'))).
      rewrite includes_across_space by exact Hkw.
      now rewrite IH.
Qed.

Lemma toLowerCase_join (lines : list string) :
  toLowerCase (join " " lines) = join " " (map toLowerCase lines).
Proof.
  unfold join. induction lines as [|l rest IH]; [reflexivity|].
  destruct rest as [|l' rest']; [reflexivity|].
  change (String.concat " " (l :: l' :: rest'))
    with (l ++ String " " (String.concat " " (l' :: rest'))).
  rewrite toLowerCase_app. cbn [toLowerCase]. rewrite IH. reflexivity.
Qed.

(** Lower-casing the joined lines and looking for a keyword is looking
    for it in each lower-cased line. *)
Lemma includes_lowered_join (kw : string) (lines : list string) :
  noSpace kw = true -> kw <> "" ->
  includes (toLowerCase (join " " lines)) kw =
  existsb (fun line => includes (toLowerCase line) kw) lines.
Proof.
  intros Hkw Hne. rewrite toLowerCase_join, includes_join by assumption.
  induction lines as [|l rest IH]; [reflexivity|].
  cbn [map existsb]. now rewrite IH.
Qed.

(** ** The ledger map *)

Lemma get_set_same (m : Ledger) (k : string) (v : Counts) :
  Map.get (Map.set m k v) k = Some v.
Proof.
  induction m as [|[k' v'] m IH]; simpl.
  - now rewrite String.eqb_refl.
  - destruct (k' =? k) eqn:E; simpl.
    + now rewrite String.eqb_refl.
    + now rewrite E.
Qed.

Lemma get_set_other (m : Ledger) (k k' : string) (v : Counts) :
  k' <> k -> Map.get (Map.set m k v) k' = Map.get m k'.
Proof.
  intros Hne. induction m as [|[k0 v0] m IH]; simpl.
  - destruct (k =? k') eqn:E; [|reflexivity].
    apply String.eqb_eq in E. congruence.
  - destruct (k0 =? k) eqn:E; simpl.
    + apply String.eqb_eq in E. subst k0.
      destruct (k =? k') eqn:E'; [|reflexivity].
      apply String.eqb_eq in E'. congruence.
    + now rewrite IH.
Qed.

Lemma countsOf_set_same (m : Ledger) (k : string) (v : Counts) :
  countsOf (Map.set m k v) k = v.
Proof. unfold countsOf. now rewrite get_set_same. Qed.

Lemma countsOf_set_other (m : Ledger) (k k' : string) (v : Counts) :
  k' <> k -> countsOf (Map.set m k v) k' = countsOf m k'.
Proof. intros H. unfold countsOf. now rewrite get_set_other. Qed.

(** A key keeps its place in the map; a new key goes last. *)
Lemma keys_set (m : Ledger) (k : string) (v : Counts) :
  map fst (Map.set m k v) =
  match Map.get m k with
  | Some _ => map fst m
  | None => (map fst m ++ [k])%list
  end.
Proof.
  induction m as [|[k' v'] m IH]; simpl; [reflexivity|].
  destruct (k' =? k) eqn:E; simpl.
  - apply String.eqb_eq in E. now subst.
  - rewrite IH. now destruct (Map.get m k).
Qed.

(** ** The classifier, rule by rule *)

Lemma shape_true (ixs : list Instruction) :
  simpleTransferShape ixs = true <->
  length ixs = 1 \/
  (length ixs <= 4 /\
   exists ix, In ix ixs /\
     (programId ix = Some COMPUTE_BUDGET \/
      (programId ix = Some SYSTEM_PROGRAM /\ parsedType ix = Some "advanceNonce"))).
Proof.
  unfold simpleTransferShape.
  rewrite orb_true_iff, andb_true_iff, orb_true_iff, Nat.eqb_eq, Nat.leb_le,
    !existsb_exists.
  unfold isComputeBudget, isAdvanceNonce.
  split.
  - intros [H | [Hle [[ix [Hin H]] | [ix [Hin H]]]]]; [now left | right .. ];
      split; try exact Hle; exists ix; split; try exact Hin.
    + left. now apply strictEq_true.
    + right. apply andb_true_iff in H. now rewrite <- !strictEq_true.
  - intros [H | [Hle [ix [Hin [H | H]]]]]; [now left | right .. ];
      split; try exact Hle.
    + left. exists ix. split; [exact Hin | now apply strictEq_true].
    + right. exists ix. split; [exact Hin|].
      apply andb_true_iff. now rewrite !strictEq_true.
Qed.

Lemma simpleTransfer_Some (ixs : list Instruction) (changes : bool)
    (q : string) (r : Result) :
  simpleTransfer ixs changes q = Some r <->
  simpleTransferShape ixs = true /\ changes = false /\
  exists ix, find isSystemTransfer ixs = Some ix /\ r = transferResult ix q.
Proof.
  unfold simpleTransfer. split.
  - destruct (simpleTransferShape ixs); [|discriminate].
    destruct (find isSystemTransfer ixs) as [ix|]; [|discriminate].
    destruct changes; simpl; [discriminate|].
    intros [= <-]. repeat split. now exists ix.
  - intros [-> [-> [ix [-> ->]]]]. reflexivity.
Qed.

(** The four ways [determineTransactionType] returns. *)
Lemma classify_cases (tx : option ParsedTransactionWithMeta) (q : string)
    (r : Result) :
  determineTransactionType tx q = Normal r ->
  (exists t ixs ix,
      tx = Some t /\
      chain (chain (transaction t) message) instructions = Some ixs /\
      simpleTransferShape ixs = true /\
      hasTokenBalanceChanges t = false /\
      find isSystemTransfer ixs = Some ix /\
      r = transferResult ix q) \/
  r = withType "swap" \/ r = withType "token_transfer" \/ r = unknownResult.
Proof.
  unfold determineTransactionType.
  destruct tx as [t|]; [|intros [= <-]; auto].
  destruct (transaction t) as [body|] eqn:Ebody; [|intros [= <-]; auto].
  destruct (message body) as [msg|] eqn:Emsg; [|intros [= <-]; auto].
  destruct (instructions msg) as [ixs|] eqn:Eixs; [|discriminate].
  cbn [bind].
  destruct (simpleTransfer ixs (hasTokenBalanceChanges t) q) as [tr|] eqn:E.
  - intros [= <-]. apply simpleTransfer_Some in E.
    destruct E as [Hshape [Hch [ix [Hfind ->]]]].
    left. exists t, ixs, ix. rewrite Ebody. cbn [chain]. rewrite Emsg. auto 10.
  - destruct (existsb isTokenTransfer ixs).
    { destruct (existsb isKnownSwap ixs); intros [= <-]; auto. }
    destruct (existsb isKnownSwap ixs); [intros [= <-]; auto|].
    destruct (logsMentionSwap t); [intros [= <-]; auto|].
    destruct (chain (meta t) innerInstructions) as [groups|];
      [|intros [= <-]; auto].
    destruct (scanInner groups) as [[|]|e]; cbn [bind];
      [intros [= <-]; auto .. | discriminate].
Qed.

Lemma counterparty_length (s d : option string) (q : string) :
  length (counterparty s d q) <= 1.
Proof.
  unfold counterparty. destruct s as [s|], d as [d|]; simpl; try lia.
  destruct (negb (s =? "") && negb (d =? "")); simpl; try lia.
  destruct (s =? q); simpl; try lia.
  destruct (d =? q); simpl; lia.
Qed.

(** The entry pushed for a transfer is the other end of the transfer:
    it is the query address only when both ends are. *)
Lemma counterparty_entry (s d : option string) (q : string) (a : RelatedAddress) :
  In a (counterparty s d q) ->
  (s = Some q /\ d = Some (address a) /\ direction a = "sent") \/
  (s = Some (address a) /\ d = Some q /\ address a <> q /\ direction a = "received").
Proof.
  unfold counterparty. destruct s as [s|], d as [d|]; simpl; try contradiction.
  destruct (negb (s =? "") && negb (d =? "")); simpl; try contradiction.
  destruct (s =? q) eqn:Es.
  - apply String.eqb_eq in Es. intros [<-|[]]. left. simpl. now subst.
  - apply String.eqb_neq in Es.
    destruct (d =? q) eqn:Ed; simpl; try contradiction.
    apply String.eqb_eq in Ed. intros [<-|[]]. right. simpl. now subst.
Qed.

(** What holds of [relatedAddresses] on every input: at most one entry
    for a transfer, none for the other types, and an entry names the
    query address only for a transfer from the query address to itself. *)
Lemma relatedAddresses_shape (tx : option ParsedTransactionWithMeta)
    (q : string) (r : Result) :
  determineTransactionType tx q = Normal r ->
  length (relatedAddresses r) <= 1 /\
  (type r <> "transfer" -> relatedAddresses r = []) /\
  (forall a, In a (relatedAddresses r) -> address a = q ->
     direction a = "sent" /\
     exists ix, details r = [("source", Str q); ("destination", Str q);
                             ("amount", amountInSol (parsedLamports ix))]).
Proof.
  intros Hreturn. apply classify_cases in Hreturn.
  destruct Hreturn as [[t [ixs [ix [_ [_ [_ [_ [_ ->]]]]]]]] | [-> | [-> | ->]]];
    try (split; [simpl; lia | split; [reflexivity | intros a []]]).
  cbn [transferResult relatedAddresses type details].
  split; [apply counterparty_length|]. split.
  - intros Hne. now contradiction Hne.
  - intros a Hin Hq. apply counterparty_entry in Hin.
    destruct Hin as [[Hs [Hd Hdir]] | [_ [_ [Hne _]]]]; [|contradiction].
    split; [exact Hdir|]. exists ix. rewrite Hs, Hd, Hq. reflexivity.
Qed.

(** The classifier returns normally as soon as the message has its
    instruction list and every inner group has one too. *)
Lemma returns_normally (t : ParsedTransactionWithMeta) (ixs : list Instruction)
    (q : string) :
  chain (chain (transaction t) message) instructions = Some ixs ->
  (forall groups, chain (meta t) innerInstructions = Some groups ->
     Forall (fun g => Inner.instructions g <> None) groups) ->
  exists r, determineTransactionType (Some t) q = Normal r.
Proof.
  intros Hixs Hinner. unfold determineTransactionType.
  destruct (transaction t) as [body|]; [|discriminate]. cbn [chain] in Hixs.
  destruct (message body) as [msg|]; [|discriminate]. cbn [chain] in Hixs.
  rewrite Hixs. cbn [bind].
  destruct (simpleTransfer _ _ _); [eauto|].
  destruct (existsb isTokenTransfer ixs);
    [destruct (existsb isKnownSwap ixs); eauto|].
  destruct (existsb isKnownSwap ixs); [eauto|].
  destruct (logsMentionSwap t); [eauto|].
  destruct (chain (meta t) innerInstructions) as [groups|]; [|eauto].
  specialize (Hinner groups eq_refl).
  assert (Hscan : exists b, scanInner groups = Normal b).
  { induction Hinner as [|g groups Hg _ IH]; simpl; [eauto|].
    destruct (Inner.instructions g) as [l|]; [|contradiction].
    destruct (existsb isInnerSwapSignal l); eauto. }
  destruct Hscan as [b ->]. cbn [bind]. eauto.
Qed.

(** ** Claims about the classifier *)

(** Runs the guards of lines 28-33 on a transaction built by [parsedTx]. *)
Ltac enter_classifier ixs m :=
  unfold determineTransactionType;
  cbn [parsedTx transaction message instructions bind];
  change {| transaction := _; meta := m |} with (parsedTx ixs m).

(** C1. The related address of a transfer is meant to be the counterparty,
    never the query address.  On a transfer whose source and destination
    are both the query address the classifier records the query address
    itself, tagged 'sent': line 80 compares the source first and pushes
    the destination without comparing it. *)
Theorem self_transfer_records_query_address :
  determineTransactionType
    (Some (parsedTx [systemTransfer alice alice 1e9] None)) alice =
  Normal {| type := "transfer";
            relatedAddresses := [{| address := alice; direction := "sent" |}];
            details := [("source", Str alice); ("destination", Str alice);
                        ("amount", Num 1)] |}.
Proof. reflexivity. Qed.

(** C2. The classifier is meant to return a result on every input.  On a
    transaction whose message has no instruction list it throws: line 28
    checks the transaction and its message, line 50 then reads
    [instructions.length] unguarded. *)
Theorem message_without_instructions_throws (m : option Meta) (q : string) :
  determineTransactionType
    (Some {| transaction := Some {| message := Some {| instructions := None |} |};
             meta := m |}) q =
  Throw (TypeError "Cannot read properties of undefined (reading 'length')").
Proof. reflexivity. Qed.

(** C4. When the transaction, its [transaction] field or its
    [transaction.message] field is absent, the classifier returns
    [{type: 'unknown', relatedAddresses: [], details: {}}] and does not
    throw. *)
Theorem missing_message_is_unknown (tx : option ParsedTransactionWithMeta)
    (q : string)
    (Habsent : tx = None \/
               chain tx transaction = None \/
               chain (chain tx transaction) message = None) :
  determineTransactionType tx q =
  Normal {| type := "unknown"; relatedAddresses := []; details := [] |}.
Proof.
  unfold determineTransactionType.
  destruct tx as [t|]; [|reflexivity]. cbn [chain] in Habsent.
  destruct (transaction t) as [body|]; [|reflexivity]. cbn [chain] in Habsent.
  destruct (message body) as [msg|]; [|reflexivity].
  destruct Habsent as [H | [H | H]]; discriminate.
Qed.

Lemma missing_message_is_unknown_witness :
  determineTransactionType
    (Some {| transaction := Some {| message := None |};
             meta := Some (logsOnly ["Program log: Instruction: Swap"]) |})
    alice =
  Normal {| type := "unknown"; relatedAddresses := []; details := [] |}.
Proof.
  apply missing_message_is_unknown. right. right. reflexivity.
Defined.

(** C5. A transaction with one instruction, or with at most four of which
    one is a compute-budget or nonce-advance instruction, whose first
    system-program transfer instruction goes from [A] to [B], two distinct
    addresses, and which has no token-balance change, is classified
    'transfer'.  Its related address is [B] tagged 'sent' when [A] is the
    query address and [A] tagged 'received' when [B] is; there is none
    when neither is. *)
Theorem native_transfer_counterparty (ixs : list Instruction)
    (m : option Meta) (q A B : string) (ix : Instruction)
    (Hshape : length ixs = 1 \/
              (length ixs <= 4 /\
               exists ix', In ix' ixs /\
                 (programId ix' = Some COMPUTE_BUDGET \/
                  (programId ix' = Some SYSTEM_PROGRAM /\
                   parsedType ix' = Some "advanceNonce"))))
    (Hfirst : find isSystemTransfer ixs = Some ix)
    (Hsource : parsedSource ix = Some A)
    (Hdestination : parsedDestination ix = Some B)
    (HA : A <> "") (HB : B <> "") (HAB : A <> B)
    (Hbalances : hasTokenBalanceChanges (parsedTx ixs m) = false) :
  exists r,
    determineTransactionType (Some (parsedTx ixs m)) q = Normal r /\
    type r = "transfer" /\
    (A = q ->
     relatedAddresses r = [{| address := B; direction := "sent" |}]) /\
    (B = q ->
     relatedAddresses r = [{| address := A; direction := "received" |}]) /\
    (A <> q -> B <> q -> relatedAddresses r = []).
Proof.
  exists (transferResult ix q). split; [|split; [reflexivity|]].
  - enter_classifier ixs m.
    replace (simpleTransfer ixs (hasTokenBalanceChanges (parsedTx ixs m)) q)
      with (Some (transferResult ix q)); [reflexivity|].
    symmetry. apply simpleTransfer_Some.
    split; [now apply shape_true|]. split; [exact Hbalances|]. now exists ix.
  - cbn [transferResult relatedAddresses]. rewrite Hsource, Hdestination.
    unfold counterparty, truthyString.
    apply String.eqb_neq in HA, HB. rewrite HA, HB. cbn [negb andb].
    repeat split.
    + intros ->. now rewrite String.eqb_refl.
    + intros ->. apply String.eqb_neq in HAB.
      now rewrite HAB, String.eqb_refl.
    + intros HAq HBq. apply String.eqb_neq in HAq, HBq. now rewrite HAq, HBq.
Qed.

Lemma native_transfer_counterparty_witness :
  exists r,
    determineTransactionType
      (Some (parsedTx [computeBudgetIx; systemTransfer carol alice 2e9] None))
      alice = Normal r /\
    type r = "transfer" /\
    (carol = alice ->
     relatedAddresses r = [{| address := alice; direction := "sent" |}]) /\
    (alice = alice ->
     relatedAddresses r = [{| address := carol; direction := "received" |}]) /\
    (carol <> alice -> alice <> alice -> relatedAddresses r = []).
Proof.
  apply (native_transfer_counterparty
           [computeBudgetIx; systemTransfer carol alice 2e9] None alice
           carol alice (systemTransfer carol alice 2e9)).
  - right. split; [simpl; lia|].
    exists computeBudgetIx. split; [now left | now left].
  - reflexivity.
  - reflexivity.
  - reflexivity.
  - discriminate.
  - discriminate.
  - discriminate.
  - reflexivity.
Defined.

(** C5, as stated, fails when the transaction has two transfer
    instructions: the classifier reads the first one only.  Here a compute
    budget instruction is followed by a transfer from Carol to Dave and by
    one from the query address to Bob; the claim asks for Bob tagged
    'sent', the classifier relates no address. *)
Lemma second_transfer_is_not_read :
  let ixs := [computeBudgetIx;
              systemTransfer carol dave 2e9;
              systemTransfer alice bob 1e9] in
  length ixs <= 4 /\
  In computeBudgetIx ixs /\ programId computeBudgetIx = Some COMPUTE_BUDGET /\
  In (systemTransfer alice bob 1e9) ixs /\
  isSystemTransfer (systemTransfer alice bob 1e9) = true /\
  parsedSource (systemTransfer alice bob 1e9) = Some alice /\
  parsedDestination (systemTransfer alice bob 1e9) = Some bob /\
  hasTokenBalanceChanges (parsedTx ixs None) = false /\
  exists r,
    determineTransactionType (Some (parsedTx ixs None)) alice = Normal r /\
    type r = "transfer" /\
    relatedAddresses r = [] /\
    relatedAddresses r <> [{| address := bob; direction := "sent" |}].
Proof.
  cbv zeta. split; [simpl; lia|].
  split; [now left|]. split; [reflexivity|].
  split; [right; right; now left|].
  do 4 (split; [reflexivity|]).
  eexists. split; [reflexivity|]. split; [reflexivity|].
  split; [reflexivity | discriminate].
Qed.

Lemma isKnownSwap_true (ix : Instruction) :
  isKnownSwap ix = true <->
  exists p, programId ix = Some p /\ In p knownSwapPrograms.
Proof.
  unfold isKnownSwap. destruct (programId ix) as [p|].
  - rewrite existsb_exists. split.
    + intros [p' [Hin Heq]]. apply String.eqb_eq in Heq. subst p'. now exists p.
    + intros [p' [[= <-] Hin]]. exists p. split; [exact Hin | apply String.eqb_refl].
  - split; [discriminate | intros [p [H _]]; discriminate].
Qed.

Lemma isTokenTransfer_true (ix : Instruction) :
  isTokenTransfer ix = true <->
  programId ix = Some TOKEN_PROGRAM /\
  (parsedType ix = Some "transfer" \/ parsedType ix = Some "transferChecked").
Proof.
  unfold isTokenTransfer.
  now rewrite andb_true_iff, orb_true_iff, !strictEq_true.
Qed.

(** C6. When the simple-transfer rule does not classify the transaction
    and a top-level instruction is a token-program 'transfer' or
    'transferChecked', the result is 'swap' if some top-level instruction
    calls a program of the swap allowlist and 'token_transfer' otherwise;
    neither relates an address. *)
Theorem token_transfer_or_swap (ixs : list Instruction) (m : option Meta)
    (q : string)
    (Hrule1 : simpleTransfer ixs (hasTokenBalanceChanges (parsedTx ixs m)) q = None)
    (Htoken : exists ix, In ix ixs /\
                programId ix = Some TOKEN_PROGRAM /\
                (parsedType ix = Some "transfer" \/
                 parsedType ix = Some "transferChecked")) :
  ((exists ix p, In ix ixs /\ programId ix = Some p /\ In p knownSwapPrograms) ->
   determineTransactionType (Some (parsedTx ixs m)) q =
   Normal {| type := "swap"; relatedAddresses := []; details := [] |}) /\
  (~ (exists ix p, In ix ixs /\ programId ix = Some p /\ In p knownSwapPrograms) ->
   determineTransactionType (Some (parsedTx ixs m)) q =
   Normal {| type := "token_transfer"; relatedAddresses := []; details := [] |}).
Proof.
  assert (Htok : existsb isTokenTransfer ixs = true).
  { destruct Htoken as [ix [Hin H]]. apply existsb_exists.
    exists ix. split; [exact Hin | now apply isTokenTransfer_true]. }
  enter_classifier ixs m.
  rewrite Hrule1, Htok. split.
  - intros [ix [p [Hin [Hp Hallow]]]].
    replace (existsb isKnownSwap ixs) with true; [reflexivity|].
    symmetry. apply existsb_exists. exists ix. split; [exact Hin|].
    apply isKnownSwap_true. now exists p.
  - intros Hnone. destruct (existsb isKnownSwap ixs) eqn:E; [|reflexivity].
    exfalso. apply Hnone. apply existsb_exists in E.
    destruct E as [ix [Hin H]]. apply isKnownSwap_true in H.
    destruct H as [p [Hp Hallow]]. now exists ix, p.
Qed.

Lemma token_transfer_or_swap_witness :
  determineTransactionType
    (Some (parsedTx [computeBudgetIx; tokenTransferIx; jupiterIx] None)) alice =
  Normal {| type := "swap"; relatedAddresses := []; details := [] |}.
Proof.
  apply (token_transfer_or_swap
           [computeBudgetIx; tokenTransferIx; jupiterIx] None alice).
  - reflexivity.
  - exists tokenTransferIx. split; [right; now left|].
    split; [reflexivity | now right].
  - exists jupiterIx, "JUP6LkbZbjS1jKKwapdHNy74zcZ3tLUZoi5QNyVTaV4".
    split; [right; right; now left|]. split; [reflexivity | now left].
Defined.

(** C8. For a transaction classified 'transfer', [details.amount] is the
    lamports of the located transfer instruction divided by 1e9 when that
    number is truthy (not 0 and not NaN), so that 1_000_000_000 lamports
    give exactly 1; it is [null] when the lamports are 0 or absent. *)
Theorem transfer_amount_in_sol (tx : option ParsedTransactionWithMeta)
    (q : string) (r : Result)
    (Hreturn : determineTransactionType tx q = Normal r)
    (Htype : type r = "transfer") :
  exists ixs ix,
    chain (chain (chain tx transaction) message) instructions = Some ixs /\
    find isSystemTransfer ixs = Some ix /\
    (forall x, parsedLamports ix = Some x -> truthyNumber x = true ->
       property (details r) "amount" = Some (Num (x / 1e9))) /\
    (parsedLamports ix = Some 1e9%float ->
       property (details r) "amount" = Some (Num 1)) /\
    (forall x, parsedLamports ix = Some x -> truthyNumber x = false ->
       property (details r) "amount" = Some null) /\
    (parsedLamports ix = None -> property (details r) "amount" = Some null).
Proof.
  apply classify_cases in Hreturn.
  destruct Hreturn as [[t [ixs [ix [-> [Hixs [_ [_ [Hfind ->]]]]]]]] | [-> | [-> | ->]]];
    try discriminate.
  exists ixs, ix. split; [exact Hixs|]. split; [exact Hfind|].
  cbn [transferResult details property String.eqb Ascii.eqb Bool.eqb].
  unfold amountInSol. repeat split.
  - intros x -> ->. reflexivity.
  - intros ->. reflexivity.
  - intros x -> ->. reflexivity.
  - intros ->. reflexivity.
Qed.

Lemma transfer_amount_in_sol_witness :
  exists ixs ix,
    chain (chain (chain (Some (parsedTx [systemTransfer alice bob 1e9] None))
                    transaction) message) instructions = Some ixs /\
    find isSystemTransfer ixs = Some ix /\
    (forall x, parsedLamports ix = Some x -> truthyNumber x = true ->
       property (details (transferResult (systemTransfer alice bob 1e9) alice))
         "amount" = Some (Num (x / 1e9))) /\
    (parsedLamports ix = Some 1e9%float ->
       property (details (transferResult (systemTransfer alice bob 1e9) alice))
         "amount" = Some (Num 1)) /\
    (forall x, parsedLamports ix = Some x -> truthyNumber x = false ->
       property (details (transferResult (systemTransfer alice bob 1e9) alice))
         "amount" = Some null) /\
    (parsedLamports ix = None ->
       property (details (transferResult (systemTransfer alice bob 1e9) alice))
         "amount" = Some null).
Proof.
  apply (transfer_amount_in_sol
           (Some (parsedTx [systemTransfer alice bob 1e9] None)) alice
           (transferResult (systemTransfer alice bob 1e9) alice)).
  - reflexivity.
  - reflexivity.
Defined.

(** C8, as stated, fails for 0 lamports: the classifier stores [null],
    not 0 / 1e9. *)
Lemma zero_lamports_amount_is_null :
  let ix := systemTransfer alice bob 0 in
  parsedLamports ix = Some 0%float /\
  exists r,
    determineTransactionType (Some (parsedTx [ix] None)) alice = Normal r /\
    type r = "transfer" /\
    property (details r) "amount" = Some null /\
    property (details r) "amount" <> Some (Num (0 / 1e9)).
Proof.
  cbv zeta. split; [reflexivity|].
  eexists. split; [reflexivity|]. split; [reflexivity|].
  split; [reflexivity | discriminate].
Qed.

Lemma existsb_orb {A : Type} (f g : A -> bool) (l : list A) :
  existsb f l || existsb g l = existsb (fun x => f x || g x) l.
Proof.
  induction l as [|x l IH]; [reflexivity|]. cbn [existsb]. rewrite <- IH.
  destruct (f x), (g x), (existsb f l), (existsb g l); reflexivity.
Qed.

(** The log rule reads the lines one by one: no keyword has a space, so
    it is found in the joined text exactly when one line contains it. *)
Lemma log_rule_reads_line_by_line (t : ParsedTransactionWithMeta)
    (lines : list string) :
  chain (meta t) logMessages = Some lines ->
  logsMentionSwap t =
  existsb (fun line =>
             includes (toLowerCase line) "swap" ||
             includes (toLowerCase line) "exchange" ||
             includes (toLowerCase line) "trade" ||
             includes (toLowerCase line) "buy" ||
             includes (toLowerCase line) "sell") lines.
Proof.
  intros Hlogs. unfold logsMentionSwap. rewrite Hlogs. cbv zeta.
  rewrite !includes_lowered_join by (reflexivity || discriminate).
  now rewrite !existsb_orb.
Qed.

(** C9. When the first three rules do not match and the log lines, joined
    with a single space between two lines and lower-cased, contain 'swap',
    'exchange', 'trade', 'buy' or 'sell', the result is 'swap'; this is
    the case as soon as one line contains the keyword, whatever its
    letter case.  When no single line contains a keyword the log rule
    does not fire: a keyword cut by a line end is not seen. *)
Theorem log_keyword_means_swap (ixs : list Instruction) (m : Meta)
    (lines : list string) (q : string)
    (Hrule1 : simpleTransfer ixs (hasTokenBalanceChanges (parsedTx ixs (Some m))) q = None)
    (Hrule2 : existsb isTokenTransfer ixs = false)
    (Hrule3 : existsb isKnownSwap ixs = false)
    (Hlogs : logMessages m = Some lines) :
  (forall kw,
      In kw ["swap"; "exchange"; "trade"; "buy"; "sell"] ->
      Contains (toLowerCase (join " " lines)) kw \/
      (exists line, In line lines /\ Contains (toLowerCase line) kw) ->
      determineTransactionType (Some (parsedTx ixs (Some m))) q =
      Normal {| type := "swap"; relatedAddresses := []; details := [] |}) /\
  ((forall kw line,
       In kw ["swap"; "exchange"; "trade"; "buy"; "sell"] ->
       In line lines -> ~ Contains (toLowerCase line) kw) ->
   logsMentionSwap (parsedTx ixs (Some m)) = false).
Proof.
  split.
  - intros kw Hkw Hfound.
    assert (Hjoined : includes (toLowerCase (join " " lines)) kw = true).
    { apply includes_Contains. destruct Hfound as [H | [line [Hin H]]];
        [exact H | now apply Contains_join with line]. }
    assert (Hmention : logsMentionSwap (parsedTx ixs (Some m)) = true).
    { unfold logsMentionSwap. cbn [parsedTx meta chain]. rewrite Hlogs.
      cbv zeta. simpl in Hkw.
      destruct Hkw as [<- | [<- | [<- | [<- | [<- | []]]]]]; rewrite Hjoined;
        now rewrite ?orb_true_r. }
    enter_classifier ixs (Some m).
    now rewrite Hrule1, Hrule2, Hrule3, Hmention.
  - intros Hnone.
    rewrite (log_rule_reads_line_by_line _ lines) by exact Hlogs.
    destruct (existsb _ lines) eqn:E; [exfalso | reflexivity].
    apply existsb_exists in E. destruct E as [line [Hin E]].
    rewrite !orb_true_iff, !includes_Contains in E.
    destruct E as [[[[E | E] | E] | E] | E];
      (eapply Hnone; [| exact Hin | exact E]); simpl; auto 6.
Qed.

Lemma log_keyword_means_swap_witness :
  determineTransactionType
    (Some (parsedTx [memoIx]
             (Some (logsOnly ["Program log: Instruction: SWAP"; "Program log: ok"]))))
    alice =
  Normal {| type := "swap"; relatedAddresses := []; details := [] |}.
Proof.
  apply (proj1 (log_keyword_means_swap [memoIx]
           (logsOnly ["Program log: Instruction: SWAP"; "Program log: ok"])
           ["Program log: Instruction: SWAP"; "Program log: ok"] alice
           eq_refl eq_refl eq_refl eq_refl) "swap").
  - now left.
  - right. exists "Program log: Instruction: SWAP". split; [now left|].
    exists "program log: instruction: ", "". reflexivity.
Defined.

(** C9, as stated, fails for a keyword that spans two lines: the lines
    'sw' and 'ap' concatenate to 'swap', but [join(' ')] puts a space
    between them and the transaction stays 'unknown'. *)
Lemma keyword_across_lines_is_not_found :
  let lines := ["Program log: sw"; "ap"] in
  let tx := parsedTx [memoIx] (Some (logsOnly lines)) in
  simpleTransfer [memoIx] (hasTokenBalanceChanges tx) alice = None /\
  existsb isTokenTransfer [memoIx] = false /\
  existsb isKnownSwap [memoIx] = false /\
  Contains (toLowerCase (String.concat "" lines)) "swap" /\
  determineTransactionType (Some tx) alice =
  Normal {| type := "unknown"; relatedAddresses := []; details := [] |}.
Proof.
  cbv zeta. do 3 (split; [reflexivity|]).
  split; [|reflexivity].
  exists "program log: ", "". reflexivity.
Qed.

(** C10. For a transaction classified 'transfer' whose located transfer
    instruction has no source or no destination, no related address is
    recorded, and [details] still holds the source and the destination as
    the instruction gives them ([undefined] for a missing one) and the
    amount: the lamports divided by 1e9 when they are a number other than
    0 and NaN, [null] when they are 0, NaN or missing. *)
Theorem transfer_without_endpoint (ixs : list Instruction) (m : option Meta)
    (q : string) (ix : Instruction) (p : Parsed.t) (r : Result)
    (Hlocated : find isSystemTransfer ixs = Some ix)
    (Hparsed : parsed ix = Some p)
    (Hreturn : determineTransactionType (Some (parsedTx ixs m)) q = Normal r)
    (Htype : type r = "transfer")
    (Hlacks : forall i, Parsed.info p = Some i ->
                source i = None \/ destination i = None) :
  relatedAddresses r = [] /\
  (forall i, Parsed.info p = Some i ->
     property (details r) "source" =
     Some (match source i with Some s => Str s | None => undefined end) /\
     property (details r) "destination" =
     Some (match destination i with Some d => Str d | None => undefined end) /\
     (forall x, lamports i = Some x -> truthyNumber x = true ->
        property (details r) "amount" = Some (Num (x / 1e9))) /\
     (forall x, lamports i = Some x -> truthyNumber x = false ->
        property (details r) "amount" = Some null) /\
     (lamports i = None -> property (details r) "amount" = Some null)) /\
  (Parsed.info p = None ->
   details r = [("source", undefined); ("destination", undefined);
                ("amount", null)]).
Proof.
  apply classify_cases in Hreturn.
  destruct Hreturn as [[t [ixs' [ix' [[= <-] [Hixs [_ [_ [Hfind ->]]]]]]]] | [-> | [-> | ->]]];
    try discriminate.
  cbn [parsedTx transaction message instructions chain] in Hixs.
  injection Hixs as <-. rewrite Hlocated in Hfind. injection Hfind as <-.
  cbn [transferResult relatedAddresses details property String.eqb Ascii.eqb Bool.eqb].
  unfold parsedSource, parsedDestination, parsedLamports.
  rewrite Hparsed. cbn [chain].
  destruct (Parsed.info p) as [i|]; cbn [chain].
  - split; [|split; [|discriminate]].
    + unfold counterparty. destruct (Hlacks i eq_refl) as [-> | ->];
        [reflexivity | now destruct (source i)].
    + intros i' [= <-]. unfold ofString, amountInSol.
      split; [now destruct (source i)|].
      split; [now destruct (destination i)|].
      split; [intros x Hx Ht; now rewrite Hx, Ht|].
      split; [intros x Hx Ht; now rewrite Hx, Ht | intros Hx; now rewrite Hx].
  - split; [reflexivity|]. split; [discriminate | reflexivity].
Qed.

Lemma transfer_without_endpoint_witness :
  relatedAddresses (transferResult transferWithoutSource alice) = [] /\
  property (details (transferResult transferWithoutSource alice)) "source" =
  Some undefined /\
  property (details (transferResult transferWithoutSource alice)) "destination" =
  Some (Str bob) /\
  property (details (transferResult transferWithoutSource alice)) "amount" =
  Some (Num 0.5).
Proof.
  destruct (transfer_without_endpoint [transferWithoutSource] None alice
              transferWithoutSource
              {| Parsed.type := Some "transfer";
                 Parsed.info := Some {| source := None;
                                        destination := Some bob;
                                        lamports := Some 5e8%float |} |}
              (transferResult transferWithoutSource alice))
    as [Hrelated [Hdetails _]].
  - reflexivity.
  - reflexivity.
  - reflexivity.
  - reflexivity.
  - intros i [= <-]. left. reflexivity.
  - destruct (Hdetails {| source := None; destination := Some bob;
                          lamports := Some 5e8%float |} eq_refl)
      as [Hsource [Hdestination [Hamount _]]].
    split; [exact Hrelated|]. split; [exact Hsource|].
    split; [exact Hdestination|].
    exact (Hamount 5e8%float eq_refl eq_refl).
Defined.

(** C10, as stated, fails when the lamports are present and 0: with the
    source missing the result is a 'transfer' without related address,
    but [details.amount] is [null], so the amount that is present is not
    recorded. *)
Lemma zero_amount_is_not_recorded :
  exists r,
    determineTransactionType
      (Some (parsedTx [transferOfNothingWithoutSource] None)) alice = Normal r /\
    type r = "transfer" /\
    parsedSource transferOfNothingWithoutSource = None /\
    parsedLamports transferOfNothingWithoutSource = Some 0%float /\
    relatedAddresses r = [] /\
    property (details r) "destination" = Some (Str bob) /\
    property (details r) "amount" = Some null /\
    property (details r) "amount" <> Some (Num 0) /\
    property (details r) "amount" <> Some (Num (0 / 1e9)).
Proof.
  eexists. split; [reflexivity|]. do 6 (split; [reflexivity|]).
  split; discriminate.
Qed.

(** ** Claims about the ledger *)

Lemma fold_one (m : Ledger) (a : RelatedAddress) :
  fold m [a] = addRelated m a.
Proof. reflexivity. Qed.

Lemma foldTimes_sent (N : nat) (m : Ledger) (X : string) :
  exists m',
    foldTimes N m [{| address := X; direction := "sent" |}] = Normal m' /\
    countsOf m' X = {| sent := sent (countsOf m X) + N;
                       received := received (countsOf m X) |} /\
    (0 < N -> Map.get m' X = Some (countsOf m' X)) /\
    (forall Y, Y <> X -> Map.get m' Y = Map.get m Y).
Proof.
  revert m. induction N as [|N IH]; intros m.
  - exists m. split; [reflexivity|]. split; [|split; [lia | auto]].
    rewrite Nat.add_0_r. now destruct (countsOf m X).
  - cbn [foldTimes fold addRelated address direction bind].
    change ("sent" =? "sent") with true. cbv iota.
    set (m1 := Map.set m X _).
    destruct (IH m1) as [m' [Hrun [Hcounts [_ Hothers]]]].
    exists m'. split; [exact Hrun|].
    assert (Hm1 : countsOf m1 X = {| sent := S (sent (countsOf m X));
                                     received := received (countsOf m X) |})
      by apply countsOf_set_same.
    rewrite Hm1 in Hcounts. cbn [sent received] in Hcounts.
    split; [rewrite Hcounts; f_equal; lia|]. split.
    + intros _. unfold countsOf at 1.
      destruct (Map.get m' X) as [c|] eqn:E; [reflexivity|].
      exfalso. unfold countsOf in Hcounts at 1. rewrite E in Hcounts.
      injection Hcounts as Hs _. lia.
    + intros Y HY. rewrite (Hothers Y HY). now apply get_set_other.
Qed.

(** C7. Starting from a ledger without [X], folding [{address: X,
    direction: 'sent'}] [N] times leaves [X] with [sent = N] and its
    received count unchanged, and every other address as it was.  One
    fold of a pair starts from the entry of its address, or from a zeroed
    one when the address is absent, adds one to the counter its tag names
    and keeps the other entries. *)
Theorem fold_counts_each_pair :
  (forall (m : Ledger) (X : string) (N : nat),
      Map.get m X = None ->
      exists m',
        foldTimes N m [{| address := X; direction := "sent" |}] = Normal m' /\
        sent (countsOf m' X) = N /\
        received (countsOf m' X) = received (countsOf m X) /\
        (0 < N -> Map.get m' X = Some {| sent := N; received := 0 |}) /\
        (forall Y, Y <> X -> Map.get m' Y = Map.get m Y)) /\
  (forall (m : Ledger) (a : RelatedAddress),
      exists m',
        fold m [a] = Normal m' /\
        (Map.get m (address a) = None ->
         countsOf m (address a) = {| sent := 0; received := 0 |}) /\
        (direction a = "sent" ->
         Map.get m' (address a) =
         Some {| sent := S (sent (countsOf m (address a)));
                 received := received (countsOf m (address a)) |}) /\
        (direction a = "received" ->
         Map.get m' (address a) =
         Some {| sent := sent (countsOf m (address a));
                 received := S (received (countsOf m (address a))) |}) /\
        (forall Y, Y <> address a -> Map.get m' Y = Map.get m Y)).
Proof.
  split.
  - intros m X N Habsent.
    destruct (foldTimes_sent N m X) as [m' [Hrun [Hcounts [Hentry Hothers]]]].
    assert (Hzero : countsOf m X = {| sent := 0; received := 0 |})
      by (unfold countsOf; now rewrite Habsent).
    rewrite Hzero in Hcounts |- *. cbn [sent received] in Hcounts |- *.
    exists m'. rewrite Hcounts. cbn [sent received].
    repeat split; auto.
    intros HN. rewrite (Hentry HN). now rewrite Hcounts.
  - intros m a. rewrite fold_one. unfold addRelated. eexists.
    split; [reflexivity|]. repeat split.
    + intros Habsent. unfold countsOf. now rewrite Habsent.
    + intros ->. rewrite get_set_same. reflexivity.
    + intros ->. rewrite get_set_same. reflexivity.
    + intros Y HY. now apply get_set_other.
Qed.

Lemma fold_counts_each_pair_witness :
  exists m',
    foldTimes 3 [(carol, {| sent := 0; received := 2 |})]
      [{| address := bob; direction := "sent" |}] = Normal m' /\
    sent (countsOf m' bob) = 3 /\
    received (countsOf m' bob) =
    received (countsOf [(carol, {| sent := 0; received := 2 |})] bob) /\
    (0 < 3 -> Map.get m' bob = Some {| sent := 3; received := 0 |}) /\
    (forall Y, Y <> bob ->
       Map.get m' Y = Map.get [(carol, {| sent := 0; received := 2 |})] Y).
Proof.
  apply (proj1 fold_counts_each_pair
           [(carol, {| sent := 0; received := 2 |})] bob 3).
  reflexivity.
Defined.

(** C3. A pair whose direction tag is neither 'sent' nor 'received' is not
    rejected: the fold returns normally, no count of any address changes,
    and the address of the pair has an entry afterwards (a zeroed one if
    it had none). *)
Theorem unknown_direction_is_kept_silently (m : Ledger) (a : RelatedAddress)
    (Hsent : direction a <> "sent")
    (Hreceived : direction a <> "received") :
  exists m',
    fold m [a] = Normal m' /\
    (forall Y, countsOf m' Y = countsOf m Y) /\
    Map.get m' (address a) = Some (countsOf m (address a)) /\
    (forall Y, Y <> address a -> Map.get m' Y = Map.get m Y).
Proof.
  rewrite fold_one. unfold addRelated.
  apply String.eqb_neq in Hsent, Hreceived. rewrite Hsent, Hreceived.
  eexists. split; [reflexivity|]. repeat split.
  - intros Y. destruct (String.eqb_spec Y (address a)) as [-> | HY].
    + apply countsOf_set_same.
    + now apply countsOf_set_other.
  - apply get_set_same.
  - intros Y HY. now apply get_set_other.
Qed.

Lemma unknown_direction_is_kept_silently_witness :
  exists m',
    fold [(bob, {| sent := 1; received := 0 |})]
      [{| address := carol; direction := "burned" |}] = Normal m' /\
    (forall Y, countsOf m' Y =
               countsOf [(bob, {| sent := 1; received := 0 |})] Y) /\
    Map.get m' carol =
    Some (countsOf [(bob, {| sent := 1; received := 0 |})] carol) /\
    (forall Y, Y <> carol ->
       Map.get m' Y = Map.get [(bob, {| sent := 1; received := 0 |})] Y).
Proof.
  apply (unknown_direction_is_kept_silently
           [(bob, {| sent := 1; received := 0 |})]
           {| address := carol; direction := "burned" |}).
  - discriminate.
  - discriminate.
Defined.

(** C3, as stated, fails: folding a pair tagged 'burned' into the empty
    ledger throws nothing and returns a ledger. *)
Lemma unknown_direction_is_not_rejected :
  let a := {| address := carol; direction := "burned" |} in
  direction a <> "sent" /\ direction a <> "received" /\
  fold [] [a] = Normal [(carol, {| sent := 0; received := 0 |})] /\
  ~ (exists e, fold [] [a] = Throw e).
Proof.
  cbv zeta. split; [discriminate|]. split; [discriminate|].
  split; [reflexivity|]. intros [e H]. discriminate.
Qed.

(** ** The whole run *)

(** The end-to-end example: a transfer of 5 SOL from the query address to
    Bob, one of 2 SOL from Carol to the query address and a swap give the
    types transfer, transfer, swap and the ledger Bob: sent 1, Carol:
    received 1, in this order. *)
Example analyze_three_transactions :
  analyze [Some (parsedTx [systemTransfer alice bob 5e9] None);
           Some (parsedTx [systemTransfer carol alice 2e9] None);
           Some (parsedTx [jupiterIx] None)] alice [] =
  Normal (["transfer"; "transfer"; "swap"],
          [(bob, {| sent := 1; received := 0 |});
           (carol, {| sent := 0; received := 1 |})]).
Proof. reflexivity. Qed.

(** * Further properties of the classifier *)

Lemma isSystemTransfer_true (ix : Instruction) :
  isSystemTransfer ix = true <->
  programId ix = Some SYSTEM_PROGRAM /\ parsedType ix = Some "transfer".
Proof.
  unfold isSystemTransfer. now rewrite andb_true_iff, !strictEq_true.
Qed.

Lemma isInnerSwapSignal_true (ix : Instruction) :
  isInnerSwapSignal ix = true <->
  (programId ix = Some TOKEN_PROGRAM /\ program ix = Some "spl-token" /\
   (parsedType ix = Some "transfer" \/ parsedType ix = Some "transferChecked")) \/
  (exists p, programId ix = Some p /\ In p knownSwapPrograms).
Proof.
  unfold isInnerSwapSignal.
  now rewrite orb_true_iff, !andb_true_iff, orb_true_iff, !strictEq_true,
    isKnownSwap_true.
Qed.

(** The classifier on a transaction built by [parsedTx], once the simple
    transfer rule has fallen through. *)
Lemma classify_after_rule1 (ixs : list Instruction) (m : option Meta) (q : string) :
  simpleTransfer ixs (hasTokenBalanceChanges (parsedTx ixs m)) q = None ->
  determineTransactionType (Some (parsedTx ixs m)) q =
  if existsb isTokenTransfer ixs then
    if existsb isKnownSwap ixs then Normal (withType "swap")
    else Normal (withType "token_transfer")
  else if existsb isKnownSwap ixs then Normal (withType "swap")
  else if logsMentionSwap (parsedTx ixs m) then Normal (withType "swap")
  else
    match chain m innerInstructions with
    | Some groups =>
        found <- scanInner groups ;;
        Normal (if found : bool then withType "swap" else unknownResult)
    | None => Normal unknownResult
    end.
Proof.
  intros Hrule1. enter_classifier ixs m. now rewrite Hrule1.
Qed.

(** X1. A transaction is classified 'transfer' exactly when its
    instruction list has the simple shape (one instruction, or at most
    four with a compute-budget or nonce-advance instruction), holds a
    system-program 'transfer' instruction and the transaction shows no
    token-balance change. *)
Theorem transfer_exactly_when (ixs : list Instruction) (m : option Meta)
    (q : string) :
  (exists r, determineTransactionType (Some (parsedTx ixs m)) q = Normal r /\
             type r = "transfer") <->
  (length ixs = 1 \/
   (length ixs <= 4 /\
    exists ix, In ix ixs /\
      (programId ix = Some COMPUTE_BUDGET \/
       (programId ix = Some SYSTEM_PROGRAM /\
        parsedType ix = Some "advanceNonce")))) /\
  (exists ix, In ix ixs /\
     programId ix = Some SYSTEM_PROGRAM /\ parsedType ix = Some "transfer") /\
  hasTokenBalanceChanges (parsedTx ixs m) = false.
Proof.
  split.
  - intros [r [Hreturn Htype]]. apply classify_cases in Hreturn.
    destruct Hreturn as [[t [ixs' [ix [[= <-] [Hixs [Hshape [Hch [Hfind _]]]]]]]] | [-> | [-> | ->]]];
      try discriminate.
    cbn [parsedTx transaction message instructions chain] in Hixs.
    injection Hixs as <-.
    split; [now apply shape_true|]. split; [|exact Hch].
    apply find_some in Hfind. destruct Hfind as [Hin Hix].
    exists ix. split; [exact Hin | now apply isSystemTransfer_true].
  - intros [Hshape [[ix [Hin Hix]] Hch]].
    destruct (find isSystemTransfer ixs) as [ix'|] eqn:Hfind.
    + exists (transferResult ix' q). split; [|reflexivity].
      enter_classifier ixs m.
      replace (simpleTransfer ixs (hasTokenBalanceChanges (parsedTx ixs m)) q)
        with (Some (transferResult ix' q)); [reflexivity|].
      symmetry. apply simpleTransfer_Some.
      split; [now apply shape_true|]. split; [exact Hch|]. now exists ix'.
    + apply isSystemTransfer_true in Hix.
      rewrite (find_none _ _ Hfind ix Hin) in Hix. discriminate.
Qed.

(** X2. When the simple transfer rule does not classify the transaction, a
    top-level instruction of an allowlisted swap program makes it a
    'swap', with or without a token transfer beside it, and whatever the
    logs and the inner instructions hold. *)
Theorem allowlisted_program_means_swap (ixs : list Instruction)
    (m : option Meta) (q : string) (ix : Instruction) (p : string)
    (Hrule1 : simpleTransfer ixs (hasTokenBalanceChanges (parsedTx ixs m)) q = None)
    (Hin : In ix ixs)
    (Hprogram : programId ix = Some p)
    (Hallow : In p knownSwapPrograms) :
  determineTransactionType (Some (parsedTx ixs m)) q =
  Normal {| type := "swap"; relatedAddresses := []; details := [] |}.
Proof.
  rewrite classify_after_rule1 by exact Hrule1.
  replace (existsb isKnownSwap ixs) with true.
  - now destruct (existsb isTokenTransfer ixs).
  - symmetry. apply existsb_exists. exists ix. split; [exact Hin|].
    apply isKnownSwap_true. now exists p.
Qed.

Lemma allowlisted_program_means_swap_witness :
  determineTransactionType
    (Some (parsedTx [computeBudgetIx; jupiterIx; memoIx]
             (Some (logsOnly ["Program log: ok"])))) alice =
  Normal {| type := "swap"; relatedAddresses := []; details := [] |}.
Proof.
  apply (allowlisted_program_means_swap
           [computeBudgetIx; jupiterIx; memoIx]
           (Some (logsOnly ["Program log: ok"])) alice jupiterIx
           "JUP6LkbZbjS1jKKwapdHNy74zcZ3tLUZoi5QNyVTaV4").
  - reflexivity.
  - right. now left.
  - reflexivity.
  - now left.
Defined.

Lemma scanInner_false (groups : list Inner.t) :
  Forall (fun g => exists l, Inner.instructions g = Some l /\
                     forall ix, In ix l -> isInnerSwapSignal ix = false) groups ->
  scanInner groups = Normal false.
Proof.
  induction 1 as [|g groups [l [Hl Hnone]] _ IH]; [reflexivity|].
  cbn [scanInner]. rewrite Hl.
  replace (existsb isInnerSwapSignal l) with false; [exact IH|].
  symmetry. apply not_true_is_false. intros H. apply existsb_exists in H.
  destruct H as [ix [Hin Hix]]. rewrite (Hnone ix Hin) in Hix. discriminate.
Qed.

Lemma scanInner_app (before after : list Inner.t) :
  scanInner before = Normal false ->
  scanInner (before ++ after)%list = scanInner after.
Proof.
  induction before as [|g before IH]; [reflexivity|].
  cbn [scanInner app]. destruct (Inner.instructions g) as [l|]; [|discriminate].
  destruct (existsb isInnerSwapSignal l); [discriminate | exact IH].
Qed.

(** X3. When no top-level rule and no log keyword matches, the inner
    instruction groups decide: without [meta.innerInstructions] the result
    is 'unknown'; with groups that all have their instruction list it is
    'swap' when some inner instruction is a token-program transfer
    attributed to 'spl-token' or calls an allowlisted program, and
    'unknown' when none does. *)
Theorem inner_instructions_decide (ixs : list Instruction) (m : option Meta)
    (q : string)
    (Hrule1 : simpleTransfer ixs (hasTokenBalanceChanges (parsedTx ixs m)) q = None)
    (Hrule2 : existsb isTokenTransfer ixs = false)
    (Hrule3 : existsb isKnownSwap ixs = false)
    (Hrule4 : logsMentionSwap (parsedTx ixs m) = false) :
  (chain m innerInstructions = None ->
   determineTransactionType (Some (parsedTx ixs m)) q =
   Normal {| type := "unknown"; relatedAddresses := []; details := [] |}) /\
  (forall groups,
      chain m innerInstructions = Some groups ->
      Forall (fun g => Inner.instructions g <> None) groups ->
      ((exists g l ix,
           In g groups /\ Inner.instructions g = Some l /\ In ix l /\
           ((programId ix = Some TOKEN_PROGRAM /\ program ix = Some "spl-token" /\
             (parsedType ix = Some "transfer" \/
              parsedType ix = Some "transferChecked")) \/
            (exists p, programId ix = Some p /\ In p knownSwapPrograms))) ->
       determineTransactionType (Some (parsedTx ixs m)) q =
       Normal {| type := "swap"; relatedAddresses := []; details := [] |}) /\
      ((forall g l ix,
           In g groups -> Inner.instructions g = Some l -> In ix l ->
           ~ (programId ix = Some TOKEN_PROGRAM /\ program ix = Some "spl-token" /\
              (parsedType ix = Some "transfer" \/
               parsedType ix = Some "transferChecked")) /\
           ~ (exists p, programId ix = Some p /\ In p knownSwapPrograms)) ->
       determineTransactionType (Some (parsedTx ixs m)) q =
       Normal {| type := "unknown"; relatedAddresses := []; details := [] |})).
Proof.
  rewrite classify_after_rule1 by exact Hrule1.
  rewrite Hrule2, Hrule3, Hrule4. split.
  - intros ->. reflexivity.
  - intros groups -> Hwell. split.
    + intros [g [l [ix [Hg [Hl [Hix Hsignal]]]]]].
      apply isInnerSwapSignal_true in Hsignal.
      replace (scanInner groups) with (@Normal bool true); [reflexivity|].
      symmetry. induction Hwell as [|g' groups Hg' Hwell IH];
        [contradiction|].
      cbn [scanInner]. destruct (Inner.instructions g') as [l'|] eqn:El';
        [|contradiction].
      destruct (existsb isInnerSwapSignal l') eqn:E; [reflexivity|].
      apply IH. destruct Hg as [->|Hg]; [|exact Hg].
      rewrite El' in Hl. injection Hl as ->.
      assert (existsb isInnerSwapSignal l = true)
        by (apply existsb_exists; now exists ix).
      congruence.
    + intros Hnone.
      replace (scanInner groups) with (@Normal bool false); [reflexivity|].
      symmetry. apply scanInner_false.
      apply Forall_forall. intros g Hg.
      rewrite Forall_forall in Hwell. specialize (Hwell g Hg).
      destruct (Inner.instructions g) as [l|] eqn:El; [|contradiction].
      exists l. split; [reflexivity|]. intros ix Hix.
      apply not_true_is_false. intros Hsignal.
      apply isInnerSwapSignal_true in Hsignal.
      destruct (Hnone g l ix Hg El Hix) as [Hn1 Hn2].
      destruct Hsignal as [H | H]; [now apply Hn1 | now apply Hn2].
Qed.

Lemma inner_instructions_decide_witness :
  determineTransactionType
    (Some (parsedTx [memoIx]
             (Some (innerOnly [{| Inner.instructions := Some [memoIx] |};
                               {| Inner.instructions := Some [innerTokenTransferIx] |}]))))
    alice =
  Normal {| type := "swap"; relatedAddresses := []; details := [] |}.
Proof.
  apply (proj2 (inner_instructions_decide [memoIx]
           (Some (innerOnly [{| Inner.instructions := Some [memoIx] |};
                             {| Inner.instructions := Some [innerTokenTransferIx] |}]))
           alice eq_refl eq_refl eq_refl eq_refl)
           [{| Inner.instructions := Some [memoIx] |};
            {| Inner.instructions := Some [innerTokenTransferIx] |}]).
  - reflexivity.
  - repeat constructor; discriminate.
  - exists {| Inner.instructions := Some [innerTokenTransferIx] |},
      [innerTokenTransferIx], innerTokenTransferIx.
    split; [right; now left|]. split; [reflexivity|]. split; [now left|].
    left. split; [reflexivity|]. split; [reflexivity | now left].
Defined.

(** X4. The inner groups are read in order and the scan stops at the first
    match.  After groups that match nothing, a group without an
    instruction list makes the classifier throw, and a group with a swap
    signal makes the result 'swap' whatever follows it, a group without
    instruction list included. *)
Theorem inner_scan_stops_at_first_match (ixs : list Instruction) (m : Meta)
    (q : string) (before after : list Inner.t) (g : Inner.t)
    (Hrule1 : simpleTransfer ixs (hasTokenBalanceChanges (parsedTx ixs (Some m))) q = None)
    (Hrule2 : existsb isTokenTransfer ixs = false)
    (Hrule3 : existsb isKnownSwap ixs = false)
    (Hrule4 : logsMentionSwap (parsedTx ixs (Some m)) = false)
    (Hgroups : innerInstructions m = Some (before ++ g :: after)%list)
    (Hbefore : Forall (fun g' => exists l, Inner.instructions g' = Some l /\
                          forall ix, In ix l -> isInnerSwapSignal ix = false)
                 before) :
  (Inner.instructions g = None ->
   exists e, determineTransactionType (Some (parsedTx ixs (Some m))) q = Throw e) /\
  (forall l ix,
      Inner.instructions g = Some l -> In ix l -> isInnerSwapSignal ix = true ->
      determineTransactionType (Some (parsedTx ixs (Some m))) q =
      Normal {| type := "swap"; relatedAddresses := []; details := [] |}).
Proof.
  rewrite classify_after_rule1 by exact Hrule1.
  rewrite Hrule2, Hrule3, Hrule4. cbn [chain]. rewrite Hgroups.
  rewrite scanInner_app by now apply scanInner_false.
  cbn [scanInner]. split.
  - intros ->. cbn [bind]. eauto.
  - intros l ix -> Hin Hix.
    replace (existsb isInnerSwapSignal l) with true; [reflexivity|].
    symmetry. apply existsb_exists. now exists ix.
Qed.

Lemma inner_scan_stops_at_first_match_witness :
  determineTransactionType
    (Some (parsedTx [memoIx]
             (Some (innerOnly [{| Inner.instructions := Some [memoIx] |};
                               {| Inner.instructions := Some [jupiterIx] |};
                               {| Inner.instructions := None |}]))))
    alice =
  Normal {| type := "swap"; relatedAddresses := []; details := [] |}.
Proof.
  destruct (inner_scan_stops_at_first_match [memoIx]
              (innerOnly [{| Inner.instructions := Some [memoIx] |};
                          {| Inner.instructions := Some [jupiterIx] |};
                          {| Inner.instructions := None |}])
              alice
              [{| Inner.instructions := Some [memoIx] |}]
              [{| Inner.instructions := None |}]
              {| Inner.instructions := Some [jupiterIx] |}) as [_ Hswap].
  - reflexivity.
  - reflexivity.
  - reflexivity.
  - reflexivity.
  - reflexivity.
  - repeat constructor. exists [memoIx]. split; [reflexivity|].
    intros ix [<-|[]]. reflexivity.
  - apply (Hswap [jupiterIx] jupiterIx); [reflexivity | now left | reflexivity].
Defined.

(** X5. Every result has one of the four types; a result that is not a
    'transfer' has no related address and empty details, and a 'transfer'
    has at most one related address and the details source, destination
    and amount, in this order. *)
Theorem result_payload (tx : option ParsedTransactionWithMeta) (q : string)
    (r : Result)
    (Hreturn : determineTransactionType tx q = Normal r) :
  In (type r) ["transfer"; "token_transfer"; "swap"; "unknown"] /\
  (type r <> "transfer" -> relatedAddresses r = [] /\ details r = []) /\
  (type r = "transfer" ->
   length (relatedAddresses r) <= 1 /\
   map fst (details r) = ["source"; "destination"; "amount"]).
Proof.
  apply classify_cases in Hreturn.
  destruct Hreturn as [[t [ixs [ix [_ [_ [_ [_ [_ ->]]]]]]]] | [-> | [-> | ->]]];
    cbn [transferResult withType unknownResult type relatedAddresses details map fst].
  - split; [now left|]. split; [intros H; now contradiction H|].
    intros _. split; [apply counterparty_length | reflexivity].
  - split; [simpl; auto|]. split; [auto | discriminate].
  - split; [simpl; auto|]. split; [auto | discriminate].
  - split; [simpl; auto|]. split; [auto | discriminate].
Qed.

Lemma result_payload_witness :
  In (type (withType "swap")) ["transfer"; "token_transfer"; "swap"; "unknown"] /\
  (type (withType "swap") <> "transfer" ->
   relatedAddresses (withType "swap") = [] /\ details (withType "swap") = []) /\
  (type (withType "swap") = "transfer" ->
   length (relatedAddresses (withType "swap")) <= 1 /\
   map fst (details (withType "swap")) = ["source"; "destination"; "amount"]).
Proof.
  apply (result_payload (Some (parsedTx [jupiterIx] None)) alice (withType "swap")).
  reflexivity.
Defined.

(** X6. A related address is never empty and is tagged 'sent' or
    'received', in accordance with the details of the result: tagged
    'sent' it is the destination and the source is the query address,
    tagged 'received' it is the source and the destination is the query
    address. *)
Theorem related_address_matches_details (tx : option ParsedTransactionWithMeta)
    (q : string) (r : Result) (a : RelatedAddress)
    (Hreturn : determineTransactionType tx q = Normal r)
    (Hin : In a (relatedAddresses r)) :
  address a <> "" /\
  ((direction a = "sent" /\
    property (details r) "source" = Some (Str q) /\
    property (details r) "destination" = Some (Str (address a))) \/
   (direction a = "received" /\
    property (details r) "source" = Some (Str (address a)) /\
    property (details r) "destination" = Some (Str q))).
Proof.
  apply classify_cases in Hreturn.
  destruct Hreturn as [[t [ixs [ix [_ [_ [_ [_ [_ ->]]]]]]]] | [-> | [-> | ->]]];
    try contradiction.
  cbn [transferResult relatedAddresses details] in *.
  cbn [property String.eqb Ascii.eqb Bool.eqb].
  assert (Hne : address a <> "").
  { revert Hin. unfold counterparty.
    destruct (parsedSource ix) as [s|], (parsedDestination ix) as [d|];
      try contradiction.
    cbn [truthyString].
    destruct (s =? "") eqn:Es, (d =? "") eqn:Ed; cbn [negb andb];
      try contradiction.
    apply String.eqb_neq in Es, Ed.
    destruct (s =? q); [intros [<-|[]]; exact Ed|].
    destruct (d =? q); [intros [<-|[]]; exact Es | contradiction]. }
  split; [exact Hne|].
  apply counterparty_entry in Hin.
  destruct Hin as [[Hs [Hd Hdir]] | [Hs [Hd [_ Hdir]]]]; rewrite Hs, Hd.
  - left. auto.
  - right. auto.
Qed.

Lemma related_address_matches_details_witness :
  address {| address := carol; direction := "received" |} <> "" /\
  ((direction {| address := carol; direction := "received" |} = "sent" /\
    property (details (transferResult (systemTransfer carol alice 2e9) alice))
      "source" = Some (Str alice) /\
    property (details (transferResult (systemTransfer carol alice 2e9) alice))
      "destination" =
    Some (Str (address {| address := carol; direction := "received" |}))) \/
   (direction {| address := carol; direction := "received" |} = "received" /\
    property (details (transferResult (systemTransfer carol alice 2e9) alice))
      "source" =
    Some (Str (address {| address := carol; direction := "received" |})) /\
    property (details (transferResult (systemTransfer carol alice 2e9) alice))
      "destination" = Some (Str alice))).
Proof.
  apply (related_address_matches_details
           (Some (parsedTx [systemTransfer carol alice 2e9] None)) alice
           (transferResult (systemTransfer carol alice 2e9) alice)
           {| address := carol; direction := "received" |}).
  - reflexivity.
  - now left.
Defined.

(** * Further properties of the ledger *)

Lemma occurrences_cons (X tag : string) (a : RelatedAddress)
    (l : list RelatedAddress) :
  occurrences X tag (a :: l) =
  (if (address a =? X) && (direction a =? tag) then 1 else 0) + occurrences X tag l.
Proof.
  unfold occurrences. cbn [filter].
  now destruct ((address a =? X) && (direction a =? tag)).
Qed.

Lemma occurrences_Permutation (X tag : string) (l1 l2 : list RelatedAddress) :
  Permutation l1 l2 -> occurrences X tag l1 = occurrences X tag l2.
Proof.
  induction 1 as [|a l1 l2 _ IH|a b l|l1 l2 l3 _ IH1 _ IH2].
  - reflexivity.
  - now rewrite !occurrences_cons, IH.
  - rewrite !occurrences_cons. lia.
  - now rewrite IH1.
Qed.

(** One call of the callback, seen from an address [X]. *)
Lemma addRelated_counts (m : Ledger) (a : RelatedAddress) :
  exists m',
    addRelated m a = Normal m' /\
    forall X,
      sent (countsOf m' X) =
      sent (countsOf m X) +
      (if (address a =? X) && (direction a =? "sent") then 1 else 0) /\
      received (countsOf m' X) =
      received (countsOf m X) +
      (if (address a =? X) && (direction a =? "received") then 1 else 0).
Proof.
  unfold addRelated. eexists. split; [reflexivity|]. intros X.
  destruct (String.eqb_spec (address a) X) as [<- | Hne].
  - rewrite countsOf_set_same. cbn [andb].
    destruct (direction a =? "sent") eqn:Es.
    + apply String.eqb_eq in Es. rewrite Es.
      cbn [sent received String.eqb Ascii.eqb Bool.eqb]. lia.
    + destruct (direction a =? "received"); cbn [sent received]; lia.
  - rewrite countsOf_set_other by congruence. cbn [andb]. lia.
Qed.

Lemma fold_app (m : Ledger) (l1 l2 : list RelatedAddress) :
  fold m (l1 ++ l2)%list = (m1 <- fold m l1 ;; fold m1 l2).
Proof.
  revert m. induction l1 as [|a l1 IH]; intros m; [reflexivity|].
  cbn [app fold]. destruct (addRelated m a) as [m0|e]; cbn [bind];
    [apply IH | reflexivity].
Qed.

Lemma fold_counts (m : Ledger) (related : list RelatedAddress) :
  exists m',
    fold m related = Normal m' /\
    forall X,
      sent (countsOf m' X) =
      sent (countsOf m X) + occurrences X "sent" related /\
      received (countsOf m' X) =
      received (countsOf m X) + occurrences X "received" related.
Proof.
  revert m. induction related as [|a l IH]; intros m.
  - exists m. split; [reflexivity|]. intros X. unfold occurrences. simpl. lia.
  - destruct (addRelated_counts m a) as [m0 [Hstep Hcounts]].
    destruct (IH m0) as [m' [Hrun Hrest]].
    exists m'. cbn [fold]. rewrite Hstep. cbn [bind]. split; [exact Hrun|].
    intros X. destruct (Hcounts X) as [Hs Hr]. destruct (Hrest X) as [Hs' Hr'].
    rewrite Hs', Hr', Hs, Hr, !(occurrences_cons X _ a l). lia.
Qed.

(** X7. The fold never throws, and afterwards the sent count of every
    address has grown by the number of pairs that name it with the tag
    'sent', its received count by the number of those tagged 'received':
    no count ever decreases, and an address that no pair names keeps its
    counts. *)
Theorem fold_tallies_every_pair (m : Ledger) (related : list RelatedAddress) :
  exists m',
    fold m related = Normal m' /\
    forall X,
      sent (countsOf m' X) =
      sent (countsOf m X) + occurrences X "sent" related /\
      received (countsOf m' X) =
      received (countsOf m X) + occurrences X "received" related /\
      sent (countsOf m X) <= sent (countsOf m' X) /\
      received (countsOf m X) <= received (countsOf m' X) /\
      (~ In X (map address related) -> countsOf m' X = countsOf m X).
Proof.
  destruct (fold_counts m related) as [m' [Hrun Hcounts]].
  exists m'. split; [exact Hrun|]. intros X.
  destruct (Hcounts X) as [Hs Hr].
  split; [exact Hs|]. split; [exact Hr|]. split; [lia|]. split; [lia|].
  intros Hnot.
  assert (Hzero : forall tag, occurrences X tag related = 0).
  { intros tag. unfold occurrences. clear - Hnot.
    induction related as [|a l IH]; [reflexivity|]. cbn [filter map] in *.
    destruct (String.eqb_spec (address a) X) as [E | _].
    - exfalso. apply Hnot. now left.
    - cbn [andb]. apply IH. intros H. apply Hnot. now right. }
  rewrite !Hzero, !Nat.add_0_r in *.
  destruct (countsOf m' X), (countsOf m X). cbn in *. now subst.
Qed.

Lemma Counts_eq (c d : Counts) :
  sent c = sent d -> received c = received d -> c = d.
Proof. destruct c, d. cbn. now intros -> ->. Qed.

(** X8. The counts do not depend on the order of the pairs: folding two
    lists that are permutations of each other into the same ledger gives
    every address the same counts. *)
Theorem fold_counts_ignore_order (m : Ledger) (l1 l2 : list RelatedAddress)
    (Hperm : Permutation l1 l2) :
  exists m1 m2,
    fold m l1 = Normal m1 /\ fold m l2 = Normal m2 /\
    forall X, countsOf m1 X = countsOf m2 X.
Proof.
  destruct (fold_counts m l1) as [m1 [H1 C1]].
  destruct (fold_counts m l2) as [m2 [H2 C2]].
  exists m1, m2. split; [exact H1|]. split; [exact H2|].
  intros X. destruct (C1 X) as [Hs1 Hr1]. destruct (C2 X) as [Hs2 Hr2].
  apply Counts_eq.
  - rewrite Hs1, Hs2. f_equal. now apply occurrences_Permutation.
  - rewrite Hr1, Hr2. f_equal. now apply occurrences_Permutation.
Qed.

Lemma fold_counts_ignore_order_witness :
  exists m1 m2,
    fold [] [{| address := bob; direction := "sent" |};
             {| address := carol; direction := "received" |};
             {| address := bob; direction := "received" |}] = Normal m1 /\
    fold [] [{| address := carol; direction := "received" |};
             {| address := bob; direction := "received" |};
             {| address := bob; direction := "sent" |}] = Normal m2 /\
    forall X, countsOf m1 X = countsOf m2 X.
Proof.
  apply (fold_counts_ignore_order []).
  apply Permutation_cons_append.
Defined.

Lemma get_None_keys (m : Ledger) (k : string) :
  Map.get m k = None <-> ~ In k (map fst m).
Proof.
  induction m as [|[k' v] m IH]; cbn [Map.get map fst In].
  - split; [intros _ [] | reflexivity].
  - destruct (String.eqb_spec k' k) as [-> | Hne].
    + split; [discriminate | intros H; contradiction H; now left].
    + rewrite IH. split; [intros H [E | Hin]; [congruence | now apply H] | tauto].
Qed.

Lemma fold_keys (m : Ledger) (related : list RelatedAddress) :
  exists m' new,
    fold m related = Normal m' /\
    map fst m' = (map fst m ++ new)%list /\
    (NoDup (map fst m) -> NoDup (map fst m')) /\
    forall X, In X (map fst m') <-> In X (map fst m) \/ In X (map address related).
Proof.
  revert m. induction related as [|a l IH]; intros m.
  - exists m, []. split; [reflexivity|]. rewrite app_nil_r.
    split; [reflexivity|]. split; [auto|]. intros X. cbn. tauto.
  - cbn [fold]. unfold addRelated. cbn [bind].
    set (m0 := Map.set m (address a) _).
    destruct (IH m0) as [m' [new [Hrun [Hkeys [Hnodup Hmem]]]]].
    assert (Hm0 : map fst m0 =
                  match Map.get m (address a) with
                  | Some _ => map fst m
                  | None => (map fst m ++ [address a])%list
                  end) by apply keys_set.
    destruct (Map.get m (address a)) as [c|] eqn:Eget.
    + assert (Hin : In (address a) (map fst m)).
      { destruct (in_dec string_dec (address a) (map fst m)) as [H|H]; [exact H|].
        apply get_None_keys in H. congruence. }
      exists m', new. split; [exact Hrun|].
      split; [now rewrite Hkeys, Hm0|]. split.
      * intros H. apply Hnodup. now rewrite Hm0.
      * intros X. rewrite Hmem, Hm0. cbn [map In].
        split; [tauto | intros [H | [<- | H]]; tauto].
    + apply get_None_keys in Eget.
      exists m', (address a :: new). split; [exact Hrun|].
      split; [rewrite Hkeys, Hm0, <- app_assoc; reflexivity|]. split.
      * intros H. apply Hnodup. rewrite Hm0.
        apply NoDup_app; [exact H | repeat constructor; intros [] |].
        intros X HX [<- | []]. contradiction.
      * intros X. rewrite Hmem, Hm0, in_app_iff. cbn [map In]. tauto.
Qed.

(** X9. The ledger keeps its addresses in the order of their first
    insertion: folding more pairs only appends addresses after those that
    are already there, never repeats one, and the addresses of the ledger
    are then exactly the former ones and those the pairs name. *)
Theorem ledger_keeps_first_seen_order (m : Ledger)
    (l1 l2 : list RelatedAddress)
    (Hnodup : NoDup (map fst m)) :
  exists m1 m2 new,
    fold m l1 = Normal m1 /\
    fold m (l1 ++ l2)%list = Normal m2 /\
    map fst m2 = (map fst m1 ++ new)%list /\
    NoDup (map fst m2) /\
    forall X, In X (map fst m2) <->
              In X (map fst m) \/ In X (map address (l1 ++ l2)%list).
Proof.
  destruct (fold_keys m l1) as [m1 [new1 [Hrun1 [Hkeys1 [Hnodup1 Hmem1]]]]].
  destruct (fold_keys m1 l2) as [m2 [new2 [Hrun2 [Hkeys2 [Hnodup2 Hmem2]]]]].
  exists m1, m2, new2. split; [exact Hrun1|].
  rewrite fold_app, Hrun1. cbn [bind]. split; [exact Hrun2|].
  split; [exact Hkeys2|]. split; [auto|].
  intros X. rewrite Hmem2, Hmem1, map_app, in_app_iff. tauto.
Qed.

Lemma ledger_keeps_first_seen_order_witness :
  exists m1 m2 new,
    fold [(bob, {| sent := 1; received := 0 |})]
      [{| address := carol; direction := "received" |}] = Normal m1 /\
    fold [(bob, {| sent := 1; received := 0 |})]
      ([{| address := carol; direction := "received" |}] ++
       [{| address := bob; direction := "sent" |};
        {| address := dave; direction := "sent" |}])%list = Normal m2 /\
    map fst m2 = (map fst m1 ++ new)%list /\
    NoDup (map fst m2) /\
    forall X, In X (map fst m2) <->
              In X (map fst [(bob, {| sent := 1; received := 0 |})]) \/
              In X (map address
                      ([{| address := carol; direction := "received" |}] ++
                       [{| address := bob; direction := "sent" |};
                        {| address := dave; direction := "sent" |}])%list).
Proof.
  apply (ledger_keeps_first_seen_order
           [(bob, {| sent := 1; received := 0 |})]).
  repeat constructor. intros [].
Defined.

(** * Properties of the run *)

Lemma related_tags (tx : option ParsedTransactionWithMeta) (q : string)
    (r : Result) :
  determineTransactionType tx q = Normal r ->
  (relatedAddresses r = [] \/
   exists a, relatedAddresses r = [a] /\ type r = "transfer" /\
             (direction a = "sent" \/ direction a = "received")).
Proof.
  intros Hreturn. apply classify_cases in Hreturn.
  destruct Hreturn as [[t [ixs [ix [_ [_ [_ [_ [_ ->]]]]]]]] | [-> | [-> | ->]]];
    try (now left).
  cbn [transferResult relatedAddresses type].
  pose proof (counterparty_length (parsedSource ix) (parsedDestination ix) q) as Hlen.
  pose proof (counterparty_entry (parsedSource ix) (parsedDestination ix) q) as Hentry.
  destruct (counterparty (parsedSource ix) (parsedDestination ix) q)
    as [|a [|b rest]]; [now left | | simpl in Hlen; lia].
  right. exists a. split; [reflexivity|]. split; [reflexivity|].
  destruct (Hentry a (or_introl eq_refl)) as [[_ [_ H]] | [_ [_ [_ H]]]]; auto.
Qed.

Lemma analyze_Some (tx : ParsedTransactionWithMeta)
    (rest : list (option ParsedTransactionWithMeta)) (q : string) (m : Ledger)
    (types : list string) (m' : Ledger) :
  analyze (Some tx :: rest) q m = Normal (types, m') ->
  exists r m1 types',
    determineTransactionType (Some tx) q = Normal r /\
    fold m (relatedAddresses r) = Normal m1 /\
    analyze rest q m1 = Normal (types', m') /\
    types = type r :: types'.
Proof.
  cbn [analyze].
  destruct (determineTransactionType (Some tx) q) as [r|e] eqn:Hr;
    cbn [bind]; [|discriminate].
  destruct (fold m (relatedAddresses r)) as [m1|e] eqn:Hfold;
    cbn [bind]; [|discriminate].
  destruct (analyze rest q m1) as [[types' m2]|e] eqn:Hrest;
    cbn [bind fst snd]; [|discriminate].
  intros [= <- <-]. now exists r, m1, types'.
Qed.

Lemma directionInfo_nil (c : Counts) :
  directionInfo c = [] <-> sent c = 0 /\ received c = 0.
Proof.
  unfold directionInfo. destruct c as [[|s] [|r]]; cbn; split;
    try discriminate; try tauto; intros [H1 H2]; discriminate.
Qed.

Lemma Forall_set (P : string * Counts -> Prop) (m : Ledger) (k : string)
    (v : Counts) :
  Forall P m -> P (k, v) -> Forall P (Map.set m k v).
Proof.
  intros Hm Hkv. induction Hm as [|[k' v'] m Hhead Htail IH]; cbn [Map.set].
  - now constructor.
  - destruct (k' =? k); constructor; assumption.
Qed.

Lemma total_set (m : Ledger) (k : string) (v : Counts) :
  total (Map.set m k v) + (sent (countsOf m k) + received (countsOf m k)) =
  total m + (sent v + received v).
Proof.
  unfold total, countsOf.
  induction m as [|[k' v'] m IH];
    cbn [Map.set Map.get map list_sum fold_right fst snd].
  - cbn [sent received]. lia.
  - destruct (k' =? k); cbn [map list_sum fold_right fst snd];
      unfold list_sum in *; lia.
Qed.

(** A step of the run: one classified transaction folded in the ledger. *)
Lemma step_ledger (tx : option ParsedTransactionWithMeta) (q : string)
    (r : Result) (m : Ledger) :
  determineTransactionType tx q = Normal r ->
  exists m1,
    fold m (relatedAddresses r) = Normal m1 /\
    (Forall (fun e => directionInfo (snd e) <> []) m ->
     Forall (fun e => directionInfo (snd e) <> []) m1) /\
    (relatedAddresses r = [] -> m1 = m) /\
    total m1 <= total m + (if type r =? "transfer" then 1 else 0).
Proof.
  intros Hreturn. destruct (related_tags tx q r Hreturn) as [-> | [a [-> [Ht Hdir]]]].
  - exists m. split; [reflexivity|]. split; [auto|]. split; [auto | lia].
  - rewrite Ht. cbn [String.eqb Ascii.eqb Bool.eqb]. rewrite fold_one.
    unfold addRelated. eexists. split; [reflexivity|].
    split; [|split; [discriminate|]].
    + intros Hm. apply Forall_set; [exact Hm|]. cbn [snd].
      rewrite directionInfo_nil.
      destruct Hdir as [-> | ->]; cbn [String.eqb Ascii.eqb Bool.eqb sent received];
        intros [H1 H2]; discriminate.
    + match goal with |- total (Map.set m ?k ?v) <= _ =>
        pose proof (total_set m k v) as H end.
      destruct Hdir as [Hd | Hd]; rewrite Hd in H;
        cbn [String.eqb Ascii.eqb Bool.eqb sent received] in H;
        rewrite Hd; cbn [String.eqb Ascii.eqb Bool.eqb]; lia.
Qed.

(** X10. After a run every address of the ledger has a positive sent or
    received count, provided those it started with had: the summary never
    shows an address without 'Sent' or 'Received'. *)
Theorem summary_names_a_direction
    (txs : list (option ParsedTransactionWithMeta)) (q : string)
    (m m' : Ledger) (types : list string)
    (Hrun : analyze txs q m = Normal (types, m'))
    (Hbefore : Forall (fun e => directionInfo (snd e) <> []) m) :
  Forall (fun e => directionInfo (snd e) <> []) m' /\
  forall e, In e m' -> 0 < sent (snd e) \/ 0 < received (snd e).
Proof.
  assert (Hafter : Forall (fun e => directionInfo (snd e) <> []) m').
  { revert m types Hrun Hbefore.
    induction txs as [|[tx|] rest IH]; intros m types Hrun Hbefore.
    - cbn in Hrun. now injection Hrun as _ <-.
    - apply analyze_Some in Hrun.
      destruct Hrun as [r [m1 [types' [Hr [Hfold [Hrest _]]]]]].
      destruct (step_ledger _ _ _ m Hr) as [m1' [Hfold' [Hkeep _]]].
      rewrite Hfold in Hfold'. injection Hfold' as <-.
      apply (IH m1 types' Hrest). now apply Hkeep.
    - cbn [analyze] in Hrun. now apply (IH m types). }
  split; [exact Hafter|]. intros e He.
  rewrite Forall_forall in Hafter. specialize (Hafter e He).
  rewrite directionInfo_nil in Hafter. lia.
Qed.

Lemma summary_names_a_direction_witness :
  Forall (fun e => directionInfo (snd e) <> [])
    [(bob, {| sent := 1; received := 0 |});
     (carol, {| sent := 0; received := 1 |})] /\
  forall e,
    In e [(bob, {| sent := 1; received := 0 |});
          (carol, {| sent := 0; received := 1 |})] ->
    0 < sent (snd e) \/ 0 < received (snd e).
Proof.
  apply (summary_names_a_direction
           [Some (parsedTx [systemTransfer alice bob 5e9] None);
            None;
            Some (parsedTx [systemTransfer carol alice 2e9] None);
            Some (parsedTx [jupiterIx] None)] alice []
           [(bob, {| sent := 1; received := 0 |});
            (carol, {| sent := 0; received := 1 |})]
           ["transfer"; "transfer"; "swap"]).
  - reflexivity.
  - constructor.
Defined.

(** X11. A run that ends normally reports one type per transaction that
    was found, each one of the four types, and the counters of the ledger
    grow in total by at most the number of transactions classified
    'transfer': no other transaction adds to the ledger. *)
Theorem run_reports_every_found_transaction
    (txs : list (option ParsedTransactionWithMeta)) (q : string)
    (m m' : Ledger) (types : list string)
    (Hrun : analyze txs q m = Normal (types, m')) :
  length types = found txs /\
  Forall (fun t => In t ["transfer"; "token_transfer"; "swap"; "unknown"]) types /\
  total m <= total m' /\
  total m' <= total m + count_occ string_dec types "transfer".
Proof.
  revert m types Hrun.
  induction txs as [|[tx|] rest IH]; intros m types Hrun.
  - cbn in Hrun. injection Hrun as <- <-. cbn. repeat split; auto; lia.
  - apply analyze_Some in Hrun.
    destruct Hrun as [r [m1 [types' [Hr [Hfold [Hrest ->]]]]]].
    destruct (IH m1 types' Hrest) as [Hlen [Htypes [Hge Hle]]].
    destruct (step_ledger _ _ _ m Hr) as [m1' [Hfold' [_ [_ Hstep]]]].
    rewrite Hfold in Hfold'. injection Hfold' as <-.
    assert (Hgrow : total m <= total m1).
    { destruct (related_tags _ _ _ Hr) as [Hnil | [a [Ha [_ Hdir]]]].
      - rewrite Hnil in Hfold. cbn in Hfold. injection Hfold as <-. lia.
      - rewrite Ha, fold_one in Hfold. unfold addRelated in Hfold.
        injection Hfold as <-.
        match goal with |- _ <= total (Map.set m ?k ?v) =>
          pose proof (total_set m k v) as H end.
        destruct Hdir as [Hd | Hd]; rewrite Hd in H |- *;
          cbn [String.eqb Ascii.eqb Bool.eqb sent received] in H |- *; lia. }
    split; [unfold found in *; cbn [filter length]; now rewrite Hlen|].
    split.
    + constructor; [|exact Htypes].
      apply classify_cases in Hr.
      destruct Hr as [[t [ixs [ix [_ [_ [_ [_ [_ ->]]]]]]]] | [-> | [-> | ->]]];
        simpl; auto.
    + split; [lia|]. cbn [count_occ].
      destruct (string_dec (type r) "transfer") as [E | E].
      * rewrite E in Hstep. cbn [String.eqb Ascii.eqb Bool.eqb] in Hstep. lia.
      * apply String.eqb_neq in E. rewrite E in Hstep. lia.
  - cbn [analyze] in Hrun. destruct (IH m types Hrun) as [Hlen H].
    split; [|exact H]. unfold found in *. cbn [filter]. exact Hlen.
Qed.

Lemma run_reports_every_found_transaction_witness :
  length ["transfer"; "transfer"; "swap"] =
  found [Some (parsedTx [systemTransfer alice bob 5e9] None);
         None;
         Some (parsedTx [systemTransfer carol alice 2e9] None);
         Some (parsedTx [jupiterIx] None)] /\
  Forall (fun t => In t ["transfer"; "token_transfer"; "swap"; "unknown"])
    ["transfer"; "transfer"; "swap"] /\
  total [] <= total [(bob, {| sent := 1; received := 0 |});
                     (carol, {| sent := 0; received := 1 |})] /\
  total [(bob, {| sent := 1; received := 0 |});
         (carol, {| sent := 0; received := 1 |})] <=
  total [] + count_occ string_dec ["transfer"; "transfer"; "swap"] "transfer".
Proof.
  apply (run_reports_every_found_transaction
           [Some (parsedTx [systemTransfer alice bob 5e9] None);
            None;
            Some (parsedTx [systemTransfer carol alice 2e9] None);
            Some (parsedTx [jupiterIx] None)] alice []).
  reflexivity.
Defined.

(** X12. The run ends normally when every transaction classifies, and the
    first transaction on which the classifier throws ends it with that
    exception: the types and the ledger gathered so far are lost, and the
    transactions after it are not read. *)
Theorem run_aborts_on_first_throw
    (before after : list (option ParsedTransactionWithMeta))
    (q : string) (m : Ledger)
    (Hbefore : Forall (fun tx => exists r, determineTransactionType tx q = Normal r)
                 before) :
  (exists out, analyze before q m = Normal out) /\
  (forall bad e,
      determineTransactionType (Some bad) q = Throw e ->
      analyze (before ++ Some bad :: after)%list q m = Throw e).
Proof.
  revert m. induction Hbefore as [|tx before [r Hr] _ IH]; intros m.
  - split; [cbn; eauto|]. intros bad e He. cbn [app analyze]. now rewrite He.
  - destruct tx as [tx|]; cbn [app analyze]; [|apply IH].
    rewrite Hr. cbn [bind].
    destruct (fold_counts m (relatedAddresses r)) as [m1 [-> _]]. cbn [bind].
    destruct (IH m1) as [[out ->] Hthrow]. cbn [bind]. split; [eauto|].
    intros bad e He. now rewrite (Hthrow bad e He).
Qed.

Lemma run_aborts_on_first_throw_witness :
  analyze
    ([Some (parsedTx [systemTransfer alice bob 5e9] None)] ++
     Some {| transaction := Some {| message := Some {| instructions := None |} |};
             meta := None |} ::
     [Some (parsedTx [jupiterIx] None)])%list alice [] =
  Throw (TypeError "Cannot read properties of undefined (reading 'length')").
Proof.
  destruct (run_aborts_on_first_throw
              [Some (parsedTx [systemTransfer alice bob 5e9] None)]
              [Some (parsedTx [jupiterIx] None)] alice []) as [_ Hthrow].
  - repeat constructor. eexists. reflexivity.
  - apply Hthrow. reflexivity.
Defined.

(** * Properties of the command line *)

Section CommandLine.

Variable parseInt : string -> number.

Lemma parseArgs_app (args1 args2 : list string) (st : ParsedArgs) :
  fold_left (parseArg parseInt) (args1 ++ args2)%list st =
  fold_left (parseArg parseInt) args2 (fold_left (parseArg parseInt) args1 st).
Proof. apply fold_left_app. Qed.

(** Flags and empty arguments before the address only set the flag. *)
Lemma flags_before_address (pre : list string) (st : ParsedArgs) :
  Forall (fun a => a = "--log" \/ a = "") pre ->
  truthyString (walletAddress st) = false ->
  truthyString (walletAddress (fold_left (parseArg parseInt) pre st)) = false /\
  limit (fold_left (parseArg parseInt) pre st) = limit st.
Proof.
  intros Hpre. revert st. induction Hpre as [|a pre Ha _ IH]; intros st Hst.
  - now split.
  - cbn [fold_left].
    assert (Hstep : truthyString (walletAddress (parseArg parseInt st a)) = false /\
                    limit (parseArg parseInt st a) = limit st).
    { unfold parseArg. destruct Ha as [-> | ->].
      - cbn [String.eqb Ascii.eqb Bool.eqb walletAddress limit]. now split.
      - cbn [String.eqb]. rewrite Hst. cbn [negb walletAddress limit]. now split. }
    destruct Hstep as [Hw Hl]. destruct (IH _ Hw) as [Hw' Hl'].
    split; [exact Hw' | now rewrite Hl'].
Qed.

(** Once the address is set it stays, whatever follows. *)
Lemma address_is_kept (post : list string) (st : ParsedArgs) :
  truthyString (walletAddress st) = true ->
  walletAddress (fold_left (parseArg parseInt) post st) = walletAddress st.
Proof.
  revert st. induction post as [|a post IH]; intros st Hst; [reflexivity|].
  cbn [fold_left]. rewrite IH.
  - unfold parseArg. destruct (a =? "--log"); [reflexivity|].
    rewrite Hst. cbn [negb]. now destruct (isNaN (parseInt a)).
  - unfold parseArg. destruct (a =? "--log"); [exact Hst|].
    rewrite Hst. cbn [negb]. now destruct (isNaN (parseInt a)).
Qed.

(** After the address, arguments that are not numbers leave the limit. *)
Lemma limit_is_kept (post : list string) (st : ParsedArgs) :
  truthyString (walletAddress st) = true ->
  Forall (fun a => a = "--log" \/ parseInt a = NaN) post ->
  limit (fold_left (parseArg parseInt) post st) = limit st.
Proof.
  intros Hst Hpost. revert st Hst.
  induction Hpost as [|a post Ha _ IH]; intros st Hst; [reflexivity|].
  cbn [fold_left].
  assert (Hstep : walletAddress (parseArg parseInt st a) = walletAddress st /\
                  limit (parseArg parseInt st a) = limit st).
  { unfold parseArg. destruct (a =? "--log") eqn:E; [now split|].
    rewrite Hst. cbn [negb]. destruct Ha as [-> | ->]; [discriminate|].
    now split. }
  destruct Hstep as [Hw Hl]. rewrite IH; [exact Hl | now rewrite Hw].
Qed.

Lemma shouldLog_parseArgs (args : list string) (st : ParsedArgs) :
  shouldLog (fold_left (parseArg parseInt) args st) =
  shouldLog st || existsb (String.eqb "--log") args.
Proof.
  revert st. induction args as [|a args IH]; intros st.
  - cbn. now rewrite orb_false_r.
  - cbn [fold_left existsb]. rewrite IH. unfold parseArg.
    rewrite (String.eqb_sym "--log" a).
    destruct (a =? "--log"); cbn [shouldLog].
    + now rewrite orb_true_r.
    + now destruct (negb (truthyString (walletAddress st))),
        (negb (isNaN (parseInt a))).
Qed.

Lemma limit_ignores_flag (post : list string) (w : option string)
    (l : number) (b b' : bool) :
  limit (fold_left (parseArg parseInt) post
           {| walletAddress := w; limit := l; shouldLog := b |}) =
  limit (fold_left (parseArg parseInt) post
           {| walletAddress := w; limit := l; shouldLog := b' |}).
Proof.
  revert w l b b'. induction post as [|a post IH]; intros w l b b'; [reflexivity|].
  cbn [fold_left]. unfold parseArg at 2 4. cbn [walletAddress limit shouldLog].
  destruct (a =? "--log"); [reflexivity|].
  destruct (negb (truthyString w)); [apply IH|].
  destruct (negb (isNaN (parseInt a))); apply IH.
Qed.

(** The state after the flags [pre], the address [w] and the rest. *)
Lemma parseArgs_address (pre post : list string) (w : string) :
  Forall (fun a => a = "--log" \/ a = "") pre ->
  w <> "--log" -> w <> "" ->
  walletAddress (parseArgs parseInt (pre ++ w :: post)%list) = Some w /\
  limit (parseArgs parseInt (pre ++ w :: post)%list) =
  limit (fold_left (parseArg parseInt) post
           {| walletAddress := Some w; limit := Int 10; shouldLog := false |}).
Proof.
  intros Hpre Hflag Hempty. unfold parseArgs.
  rewrite parseArgs_app. cbn [fold_left].
  destruct (flags_before_address pre defaultArguments Hpre eq_refl) as [Hw Hl].
  set (st := fold_left (parseArg parseInt) pre defaultArguments) in *.
  assert (Hstep : parseArg parseInt st w =
                  {| walletAddress := Some w; limit := Int 10;
                     shouldLog := shouldLog st |}).
  { unfold parseArg. apply String.eqb_neq in Hflag. rewrite Hflag, Hw.
    cbn [negb]. now rewrite Hl. }
  rewrite Hstep.
  assert (Htruthy : truthyString (Some w) = true)
    by (cbn; apply String.eqb_neq in Hempty; now rewrite Hempty).
  split.
  - now rewrite address_is_kept.
  - apply limit_ignores_flag.
Qed.

(** X13. When the start of [main] does not exit, the limit it goes on with
    is between 1 and 1000, the capping notice is printed exactly when the
    requested limit was above 1000 (the limit is then 1000), and the
    wallet address is an argument that is neither empty nor '--log'. *)
Theorem started_limit_is_in_range (args : list string) (w : string) (lim : Z)
    (log notice : bool)
    (Hstart : start parseInt args = Run w lim log notice) :
  (1 <= lim <= 1000)%Z /\
  (notice = true -> lim = 1000%Z) /\
  w <> "" /\ w <> "--log" /\ In w args.
Proof.
  unfold start, checkArguments in Hstart.
  destruct (walletAddress (parseArgs parseInt args)) as [w'|] eqn:Hw;
    [|discriminate].
  destruct (truthyString (Some w')) eqn:Htruthy; [|discriminate].
  destruct (limit (parseArgs parseInt args)) as [|z]; [discriminate|].
  destruct (z <=? 0)%Z eqn:Hz; [discriminate|].
  injection Hstart as -> <- _ <-. apply Z.leb_gt in Hz.
  split; [lia|]. split; [rewrite Z.ltb_lt; lia|].
  cbn in Htruthy. apply negb_true_iff, String.eqb_neq in Htruthy.
  split; [exact Htruthy|].
  assert (Hinv : forall args st,
             walletAddress (fold_left (parseArg parseInt) args st) = Some w ->
             walletAddress st = Some w \/ (In w args /\ w <> "--log")).
  { clear. intros args. induction args as [|a args IH]; intros st H; [now left|].
    cbn [fold_left] in H. apply IH in H. destruct H as [H | [H1 H2]].
    - unfold parseArg in H. destruct (a =? "--log") eqn:E; [now left|].
      destruct (negb (truthyString (walletAddress st))).
      + cbn [walletAddress] in H. injection H as ->. right.
        apply String.eqb_neq in E. split; [now left | exact E].
      + destruct (negb (isNaN (parseInt a))); now left.
    - right. split; [now right | exact H2]. }
  destruct (Hinv args defaultArguments Hw) as [H | [H1 H2]]; [discriminate|].
  now split.
Qed.

(** X14. The '--log' flag is recognised at any position: a run that
    starts logs exactly when '--log' is among the arguments. *)
Theorem log_flag_anywhere (args : list string) (w : string) (lim : Z)
    (log notice : bool)
    (Hstart : start parseInt args = Run w lim log notice) :
  log = true <-> In "--log" args.
Proof.
  unfold start, checkArguments in Hstart.
  destruct (walletAddress (parseArgs parseInt args)) as [w'|]; [|discriminate].
  destruct (truthyString (Some w')); [|discriminate].
  destruct (limit (parseArgs parseInt args)) as [|z]; [discriminate|].
  destruct (z <=? 0)%Z; [discriminate|].
  injection Hstart as _ _ <- _.
  unfold parseArgs. rewrite shouldLog_parseArgs. cbn [defaultArguments shouldLog orb].
  rewrite existsb_exists. split.
  - intros [a [Hin Ha]]. apply String.eqb_eq in Ha. now subst a.
  - intros Hin. exists "--log". split; [exact Hin | reflexivity].
Qed.

(** X15. The wallet address is the first argument that is neither '--log'
    nor empty, whether or not it reads as a number; without such an
    argument [main] prints the usage and exits with code 1. *)
Theorem first_word_is_the_address :
  (forall args,
      Forall (fun a => a = "--log" \/ a = "") args ->
      start parseInt args = Exit 1) /\
  (forall pre w post,
      Forall (fun a => a = "--log" \/ a = "") pre ->
      w <> "--log" -> w <> "" ->
      start parseInt (pre ++ w :: post)%list = Exit 1 \/
      exists lim log notice,
        start parseInt (pre ++ w :: post)%list = Run w lim log notice).
Proof.
  split.
  - intros args Hargs. unfold start, checkArguments, parseArgs.
    destruct (flags_before_address args defaultArguments Hargs eq_refl) as [Hw _].
    destruct (walletAddress (fold_left (parseArg parseInt) args defaultArguments))
      as [w|]; [|reflexivity].
    now rewrite Hw.
  - intros pre w post Hpre Hflag Hempty.
    destruct (parseArgs_address pre post w Hpre Hflag Hempty) as [Hw _].
    unfold start, checkArguments. rewrite Hw.
    destruct (truthyString (Some w)); [|now left].
    destruct (limit (parseArgs parseInt (pre ++ w :: post))) as [|z]; [now left|].
    destruct (z <=? 0)%Z; [now left|]. right. eauto.
Qed.

(** X16. After the address, the last argument that reads as a number is
    the requested limit, and the default of 10 stays when there is none;
    a requested limit of 0 or less makes [main] exit with code 1, one
    above 1000 is capped to 1000 with the notice. *)
Theorem last_number_is_the_limit (pre post : list string) (w : string)
    (Hpre : Forall (fun a => a = "--log" \/ a = "") pre)
    (Hflag : w <> "--log") (Hempty : w <> "") :
  (Forall (fun a => a = "--log" \/ parseInt a = NaN) post ->
   start parseInt (pre ++ w :: post)%list =
   Run w 10 (existsb (String.eqb "--log") (pre ++ w :: post)%list) false) /\
  (forall mid x tail n,
      post = (mid ++ x :: tail)%list ->
      x <> "--log" -> parseInt x = Int n ->
      Forall (fun a => a = "--log" \/ parseInt a = NaN) tail ->
      start parseInt (pre ++ w :: post)%list =
      if (n <=? 0)%Z then Exit 1
      else Run w (Z.min n 1000)
             (existsb (String.eqb "--log") (pre ++ w :: post)%list)
             (1000 <? n)%Z).
Proof.
  destruct (parseArgs_address pre post w Hpre Hflag Hempty) as [Hw Hl].
  assert (Htruthy : truthyString (Some w) = true)
    by (cbn; apply String.eqb_neq in Hempty; now rewrite Hempty).
  assert (Hlog : shouldLog (parseArgs parseInt (pre ++ w :: post)%list) =
                 existsb (String.eqb "--log") (pre ++ w :: post)%list)
    by (unfold parseArgs; now rewrite shouldLog_parseArgs).
  split.
  - intros Hpost. unfold start, checkArguments.
    rewrite Hw, Htruthy, Hl, limit_is_kept by assumption.
    cbn [limit]. now rewrite Hlog.
  - intros mid x tail n -> Hx Hn Htail. unfold start, checkArguments.
    rewrite Hw, Htruthy, Hl, Hlog. rewrite parseArgs_app. cbn [fold_left].
    set (st0 := {| walletAddress := Some w; limit := Int 10; shouldLog := false |}).
    assert (Hmid : walletAddress (fold_left (parseArg parseInt) mid st0) = Some w)
      by now rewrite address_is_kept.
    set (st1 := fold_left (parseArg parseInt) mid st0) in *.
    assert (Hstep : parseArg parseInt st1 x =
                    {| walletAddress := Some w; limit := Int n;
                       shouldLog := shouldLog st1 |}).
    { unfold parseArg. apply String.eqb_neq in Hx. rewrite Hx, Hmid, Htruthy, Hn.
      reflexivity. }
    rewrite Hstep, limit_is_kept by assumption. reflexivity.
Qed.

End CommandLine.

Lemma started_limit_is_in_range_witness :
  (1 <= 1000 <= 1000)%Z /\
  (true = true -> 1000%Z = 1000%Z) /\
  "addr" <> "" /\ "addr" <> "--log" /\
  In "addr" ["--log"; "addr"; "2000"; "x"].
Proof.
  apply (started_limit_is_in_range parseIntAscii
           ["--log"; "addr"; "2000"; "x"] "addr" 1000 true true).
  reflexivity.
Defined.

Lemma log_flag_anywhere_witness :
  true = true <-> In "--log" ["addr"; "50"; "--log"].
Proof.
  apply (log_flag_anywhere parseIntAscii ["addr"; "50"; "--log"] "addr" 50
           true false).
  reflexivity.
Defined.

Lemma first_word_is_the_address_witness :
  start parseIntAscii (["--log"; ""] ++ "50" :: ["20"])%list = Exit 1 \/
  exists lim log notice,
    start parseIntAscii (["--log"; ""] ++ "50" :: ["20"])%list =
    Run "50" lim log notice.
Proof.
  apply (proj2 (first_word_is_the_address parseIntAscii) ["--log"; ""] "50" ["20"]).
  - constructor; [now left|]. constructor; [now right | constructor].
  - discriminate.
  - discriminate.
Defined.

Lemma last_number_is_the_limit_witness :
  start parseIntAscii ([] ++ "addr" :: (["0"; "oops"] ++ "5000" :: ["--log"]))%list =
  if (5000 <=? 0)%Z then Exit 1
  else Run "addr" (Z.min 5000 1000)
         (existsb (String.eqb "--log")
            ([] ++ "addr" :: (["0"; "oops"] ++ "5000" :: ["--log"]))%list)
         (1000 <? 5000)%Z.
Proof.
  destruct (last_number_is_the_limit parseIntAscii []
              (["0"; "oops"] ++ "5000" :: ["--log"])%list "addr") as [_ H].
  - constructor.
  - discriminate.
  - discriminate.
  - apply (H ["0"; "oops"] "5000" ["--log"] 5000%Z).
    + reflexivity.
    + discriminate.
    + reflexivity.
    + constructor; [now left | constructor].
Defined.

(** * Properties of the report *)

(** X17. The suffix of the amount line agrees with the related address of
    the transaction: with an address tagged 'sent' the line, when
    printed, ends in '(Sent)', and with an address tagged 'received' it
    ends in '(Received)'. *)
Theorem amount_label_agrees_with_direction
    (tx : option ParsedTransactionWithMeta) (q : string) (r : Result)
    (a : RelatedAddress)
    (Hreturn : determineTransactionType tx q = Normal r)
    (Hin : In a (relatedAddresses r)) :
  (direction a = "sent" ->
   amountLabel r q = None \/ amountLabel r q = Some " (Sent)") /\
  (direction a = "received" ->
   amountLabel r q = None \/ amountLabel r q = Some " (Received)").
Proof.
  apply classify_cases in Hreturn.
  destruct Hreturn as [[t [ixs [ix [_ [_ [_ [_ [_ ->]]]]]]]] | [-> | [-> | ->]]];
    try contradiction.
  cbn [transferResult relatedAddresses] in Hin.
  apply counterparty_entry in Hin.
  unfold amountLabel.
  cbn [transferResult type details property String.eqb Ascii.eqb Bool.eqb andb].
  destruct (truthyValue (Some (amountInSol (parsedLamports ix)))); [|now split; left].
  destruct Hin as [[Hs [_ Hdir]] | [Hs [_ [Hne Hdir]]]]; rewrite Hs, Hdir;
    cbn [ofString valueIs].
  - rewrite String.eqb_refl. split; [now right | discriminate].
  - apply String.eqb_neq in Hne. rewrite Hne. split; [discriminate | now right].
Qed.

Lemma amount_label_agrees_with_direction_witness :
  (direction {| address := carol; direction := "received" |} = "sent" ->
   amountLabel (transferResult (systemTransfer carol alice 2e9) alice) alice = None \/
   amountLabel (transferResult (systemTransfer carol alice 2e9) alice) alice =
   Some " (Sent)") /\
  (direction {| address := carol; direction := "received" |} = "received" ->
   amountLabel (transferResult (systemTransfer carol alice 2e9) alice) alice = None \/
   amountLabel (transferResult (systemTransfer carol alice 2e9) alice) alice =
   Some " (Received)").
Proof.
  apply (amount_label_agrees_with_direction
           (Some (parsedTx [systemTransfer carol alice 2e9] None)) alice
           (transferResult (systemTransfer carol alice 2e9) alice)
           {| address := carol; direction := "received" |}).
  - reflexivity.
  - now left.
Defined.

Lemma replaceColons_app (s t : string) :
  replaceColons (s ++ t) = replaceColons s ++ replaceColons t.
Proof. induction s as [|c s IH]; cbn; [reflexivity | now rewrite IH]. Qed.

Lemma replaceColons_without (s : string) : without ":" (replaceColons s).
Proof.
  induction s as [|c s IH]; cbn; [exact I|]. split; [|exact IH].
  destruct (Ascii.eqb_spec c ":"); [discriminate | assumption].
Qed.

Lemma replaceColons_keeps (c : ascii) (s : string) :
  c <> "-"%char -> without c s -> without c (replaceColons s).
Proof.
  intros Hc. induction s as [|d s IH]; cbn; [auto|]. intros [Hd Hs].
  split; [|now apply IH]. destruct (Ascii.eqb d ":"); congruence.
Qed.

Lemma afterLine_without (c : ascii) (s : string) :
  without c s -> without c (afterLine s).
Proof.
  induction s as [|d s IH]; cbn; [auto|]. intros [Hd Hs].
  destruct (isLineTerminator d); cbn; auto.
Qed.

Lemma dropFraction_without (c : ascii) (s : string) :
  without c s -> without c (dropFraction s).
Proof.
  induction s as [|d s IH]; [auto|]. intros [Hd Hs]. cbn [dropFraction].
  destruct (Ascii.eqb d ".").
  - destruct s as [|e s']; [now split|].
    destruct (isLineTerminator e); [split; auto|].
    now apply afterLine_without.
  - split; auto.
Qed.

Lemma afterLine_line (s : string) :
  without (ascii_of_nat 10) s -> without (ascii_of_nat 13) s ->
  afterLine s = "".
Proof.
  induction s as [|d s IH]; [reflexivity|]. cbn [without afterLine].
  intros [H10 Hs10] [H13 Hs13].
  replace (isLineTerminator d) with false; [now apply IH|].
  symmetry. unfold isLineTerminator. apply orb_false_iff. split;
    apply Nat.eqb_neq; intros E; [apply H10 | apply H13];
    rewrite <- E; now rewrite ascii_nat_embedding.
Qed.

Lemma dropFraction_at_dot (s ms : string) (d : ascii) :
  without "." s ->
  without (ascii_of_nat 10) (String d ms) ->
  without (ascii_of_nat 13) (String d ms) ->
  dropFraction (s ++ String "." (String d ms)) = s.
Proof.
  intros Hs H10 H13. induction s as [|c s IH].
  - cbn [append dropFraction]. change (Ascii.eqb "." ".") with true. cbv iota.
    rewrite (afterLine_line _ H10 H13).
    destruct H10 as [H10 _], H13 as [H13 _].
    replace (isLineTerminator d) with false; [reflexivity|].
    symmetry. unfold isLineTerminator. apply orb_false_iff. split;
      apply Nat.eqb_neq; intros E; [apply H10 | apply H13];
      rewrite <- E; now rewrite ascii_nat_embedding.
  - destruct Hs as [Hc Hs]. cbn [append dropFraction].
    apply Ascii.eqb_neq in Hc. rewrite Hc. now rewrite IH.
Qed.

(** X18. The name of the log file is 'tx_logs_', the first eight
    characters of the address, '_', a time stamp and '.json'.  The time
    stamp never holds a colon, and for the time [seconds . fraction] it is
    [seconds] with its colons turned into dashes: the fraction of a
    second is dropped. *)
Theorem log_file_name_has_no_colon (address iso : string) :
  (exists stamp,
      logFileName address iso =
      "tx_logs_" ++ String.substring 0 8 address ++ "_" ++ stamp ++ ".json" /\
      without ":" stamp) /\
  (forall seconds fraction d,
      iso = seconds ++ String "." (String d fraction) ->
      without "." seconds ->
      without (ascii_of_nat 10) (String d fraction) ->
      without (ascii_of_nat 13) (String d fraction) ->
      logFileName address iso =
      "tx_logs_" ++ String.substring 0 8 address ++ "_" ++
      replaceColons seconds ++ ".json").
Proof.
  split.
  - exists (dropFraction (replaceColons iso)). split; [reflexivity|].
    apply dropFraction_without, replaceColons_without.
  - intros seconds fraction d -> Hs H10 H13. unfold logFileName.
    rewrite replaceColons_app.
    cbn [replaceColons]. change (Ascii.eqb "." ":") with false. cbv iota.
    rewrite dropFraction_at_dot; [reflexivity | | |].
    + apply replaceColons_keeps; [discriminate | exact Hs].
    + destruct H10 as [Hd H]. split.
      * destruct (Ascii.eqb d ":"); [discriminate | exact Hd].
      * apply replaceColons_keeps; [discriminate | exact H].
    + destruct H13 as [Hd H]. split.
      * destruct (Ascii.eqb d ":"); [discriminate | exact Hd].
      * apply replaceColons_keeps; [discriminate | exact H].
Qed.

Lemma log_file_name_has_no_colon_witness :
  logFileName alice "2024-05-06T07:08:09.123Z" =
  "tx_logs_" ++ String.substring 0 8 alice ++ "_" ++
  replaceColons "2024-05-06T07:08:09" ++ ".json".
Proof.
  destruct (log_file_name_has_no_colon alice "2024-05-06T07:08:09.123Z")
    as [_ H].
  apply (H "2024-05-06T07:08:09" "23Z" "1"%char).
  - reflexivity.
  - cbn. repeat split; discriminate.
  - cbn. repeat split; discriminate.
  - cbn. repeat split; discriminate.
Defined.
